(** * OS/161 synchronization primitives (kern/thread/synch.c)

    A shallow embedding of the semaphore, lock and condition-variable code
    of [kern/thread/synch.c], together with the small part of the thread
    system and of the interrupt-priority machinery that the file calls.

    - Kernel objects live in one heap, keyed by address; a pointer is an
      integer and [NULL] is 0.
    - Every function of synch.c is a function from the machine state to an
      outcome: it returns, it puts the calling thread to sleep (and records
      where the thread resumes), it trips an [assert], or it dereferences a
      pointer that does not point to an object of the expected type.
    - A log of the stores, interrupt-level changes, sleeps and wakeups is
      kept next to the kernel state, so that the order of effects inside
      one call can be stated. *)

From Stdlib Require Import ZArith List Lia.
From stdpp Require Import gmap strings list fin_maps.

Local Open Scope Z_scope.

(** ** Machine integers and pointers *)

Abbreviation ptr := Z (only parsing).

Definition NULL : ptr := 0.

Definition INT_MIN : Z := -2147483648.
Definition INT_MAX : Z := 2147483647.

(** Arithmetic on a C [int] (32 bits, two's complement). *)
Definition wrap_int (z : Z) : Z := (z + 2147483648) mod 4294967296 - 2147483648.

(** Modelled from the spec: the interrupt-level guard raises the level "to
    the maximum"; machine/spl.h is not part of the sources.  OS/161 uses 15
    for that level. *)
Definition SPL_HIGH : Z := 15.

(** ** Kernel objects *)

(** Modelled from the spec: synch.h is not part of the sources.  The fields
    are those synch.c reads and writes: [sem->name], [sem->count];
    [lock->name], [lock->flag], [lock->currentThread]; [cv->name]. *)
Record semaphore := { sem_name : ptr; count : Z }.
Record lock := { lock_name : ptr; flag : Z; currentThread : ptr }.
Record cv := { cv_name : ptr }.

Inductive obj :=
| ORaw                      (* a block fresh from kmalloc, not yet initialised *)
| OStr (s : string)         (* a string made by kstrdup *)
| OSem (v : semaphore)
| OLock (v : lock)
| OCv (v : cv).

(** ** Kernel state *)

Record kstate := {
  heap : gmap Z obj;            (* allocated kernel objects, by address *)
  kalloc : list Z;              (* addresses the allocator hands out next *)
  curspl : Z;                   (* current interrupt priority level *)
  in_interrupt : Z;             (* nonzero inside an interrupt handler *)
  curthread : ptr;              (* the running thread *)
  sleepers : list (ptr * ptr);  (* (thread, sleep address), oldest first *)
  runqueue : list ptr           (* threads made runnable by a wakeup *)
}.

Definition set_heap (f : gmap Z obj → gmap Z obj) (s : kstate) : kstate :=
  {| heap := f (heap s); kalloc := kalloc s; curspl := curspl s;
     in_interrupt := in_interrupt s; curthread := curthread s;
     sleepers := sleepers s; runqueue := runqueue s |}.

Definition set_kalloc (l : list Z) (s : kstate) : kstate :=
  {| heap := heap s; kalloc := l; curspl := curspl s;
     in_interrupt := in_interrupt s; curthread := curthread s;
     sleepers := sleepers s; runqueue := runqueue s |}.

Definition set_curspl (n : Z) (s : kstate) : kstate :=
  {| heap := heap s; kalloc := kalloc s; curspl := n;
     in_interrupt := in_interrupt s; curthread := curthread s;
     sleepers := sleepers s; runqueue := runqueue s |}.

Definition set_queues (sl : list (ptr * ptr)) (rq : list ptr) (s : kstate) : kstate :=
  {| heap := heap s; kalloc := kalloc s; curspl := curspl s;
     in_interrupt := in_interrupt s; curthread := curthread s;
     sleepers := sl; runqueue := rq |}.

(** What a call does, in order. *)
Inductive event :=
| EvSpl (level : Z)                     (* the interrupt level is set *)
| EvCount (sem : ptr) (v : Z)           (* store to sem->count *)
| EvFlag (lk : ptr) (v : Z)             (* store to lock->flag *)
| EvOwner (lk : ptr) (t : ptr)          (* store to lock->currentThread *)
| EvSleep (t : ptr) (chan : ptr)        (* thread t goes to sleep on chan *)
| EvWake (chan : ptr) (woken : list ptr). (* these threads are made runnable *)

Record world := { st : kstate; tr : list event }.

Definition upd (f : kstate → kstate) (e : list event) (w : world) : world :=
  {| st := f (st w); tr := tr w ++ e |}.

(** ** Suspended calls

    A thread that sleeps inside synch.c resumes inside [thread_sleep]; what
    is left of the calls it is in is a stack of frames, innermost first. *)
Inductive frame :=
| FP (sem : ptr) (spl : Z)              (* P: in thread_sleep(sem), inside the while *)
| FLockAcquire (lk : ptr) (spl : Z)     (* lock_acquire: in thread_sleep(lock), inside the while *)
| FCvWaitSleep (c lk : ptr) (spl : Z)   (* cv_wait: in thread_sleep(cv) *)
| FCvWaitAcquire (c lk : ptr) (spl : Z). (* cv_wait: in lock_acquire(lock) *)

Inductive outcome (A : Type) :=
| Done (a : A) (w : world)              (* the call returns a *)
| Blocked (k : list frame) (w : world)  (* the caller sleeps; k is what it resumes *)
| Panic (msg : string) (w : world)      (* an assert fails: the kernel halts *)
| Fault.                                (* invalid pointer dereferenced *)

Arguments Done {A} a w.
Arguments Blocked {A} k w.
Arguments Panic {A} msg w.
Arguments Fault {A}.

Definition M (A : Type) : Type := world → outcome A.

Definition ret {A} (a : A) : M A := fun w => Done a w.

(** Sequencing of a statement that cannot put the caller to sleep. *)
Definition bind {A B} (m : M A) (f : A → M B) : M B :=
  fun w =>
    match m w with
    | Done a w' => f a w'
    | Blocked k w' => Blocked k w'
    | Panic msg w' => Panic msg w'
    | Fault => Fault
    end.

(** Sequencing of a call that can: if the callee sleeps, frame [fr] (the
    rest of the caller) is pushed below the callee's frames. *)
Definition call {A B} (m : M A) (fr : frame) (f : A → M B) : M B :=
  fun w =>
    match m w with
    | Done a w' => f a w'
    | Blocked k w' => Blocked (k ++ [fr]) w'
    | Panic msg w' => Panic msg w'
    | Fault => Fault
    end.

Notation "'let*' x ':=' m 'in' f" := (bind m (fun x => f))
  (at level 10, x name, m at level 100, f at level 200, only parsing).
Notation "m >> f" := (bind m (fun _ => f))
  (at level 65, right associativity, only parsing).

Definition assert (b : bool) (msg : string) : M unit :=
  fun w => if b then Done tt w else Panic msg w.

Definition get {A} (f : kstate → A) : M A := fun w => Done (f (st w)) w.

Definition modify (f : kstate → kstate) (e : list event) : M unit :=
  fun w => Done tt (upd f e w).

(** ** Heap access *)

Definition load_sem (p : ptr) : M semaphore :=
  fun w => match heap (st w) !! p with Some (OSem v) => Done v w | _ => Fault end.

Definition load_lock (p : ptr) : M lock :=
  fun w => match heap (st w) !! p with Some (OLock v) => Done v w | _ => Fault end.

Definition load_cv (p : ptr) : M cv :=
  fun w => match heap (st w) !! p with Some (OCv v) => Done v w | _ => Fault end.

Definition store_count (p : ptr) (c : Z) : M unit :=
  let* v := load_sem p in
  modify (set_heap <[p := OSem {| sem_name := sem_name v; count := c |}]>) [EvCount p c].

Definition store_flag (p : ptr) (f : Z) : M unit :=
  let* v := load_lock p in
  modify (set_heap <[p := OLock {| lock_name := lock_name v; flag := f;
                                   currentThread := currentThread v |}]>) [EvFlag p f].

Definition store_currentThread (p : ptr) (t : ptr) : M unit :=
  let* v := load_lock p in
  modify (set_heap <[p := OLock {| lock_name := lock_name v; flag := flag v;
                                   currentThread := t |}]>) [EvOwner p t].

(** Initialisation of a block obtained from kmalloc: the stores that fill
    in every field of the structure. *)
Definition init (p : ptr) (o : obj) : M unit :=
  fun w => match heap (st w) !! p with
           | Some ORaw => Done tt (upd (set_heap <[p := o]>) [] w)
           | _ => Fault
           end.

(** ** The collaborators of synch.c *)

(** Modelled from the spec: the allocator (lib.h, kmalloc.c) is not part of
    the sources.  [kmalloc] returns NULL when memory is exhausted; otherwise
    a block that is not in use.  The addresses it will return are fixed in
    advance in [kalloc]; an exhausted list, a NULL entry or an entry that is
    in use stands for a failed allocation. *)
Definition kmalloc : M ptr :=
  fun w =>
    match kalloc (st w) with
    | [] => Done NULL w
    | a :: rest =>
        if bool_decide (a = NULL) || bool_decide (is_Some (heap (st w) !! a))
        then Done NULL (upd (set_kalloc rest) [] w)
        else Done a (upd (fun s => set_heap <[a := ORaw]> (set_kalloc rest s)) [] w)
    end.

Definition kfree (p : ptr) : M unit := modify (set_heap (delete p)) [].

Definition kstrdup (s : string) : M ptr :=
  let* a := kmalloc in
  if a =? NULL then ret NULL
  else init a (OStr s) >> ret a.

(** Modelled from the spec: the interrupt-level guard (machine/spl.h) is not
    part of the sources.  [splhigh] is "raise_to_max() -> previous_level" and
    [splx] is "restore(previous_level)". *)
Definition splhigh : M Z :=
  fun w => Done (curspl (st w)) (upd (set_curspl SPL_HIGH) [EvSpl SPL_HIGH] w).

Definition splx (n : Z) : M unit := modify (set_curspl n) [EvSpl n].

Definition on_chan (a : ptr) (e : ptr * ptr) : bool := snd e =? a.

(** The first sleeper on [a] is taken out of the queue. *)
Fixpoint remove_first (a : ptr) (l : list (ptr * ptr)) : option ptr * list (ptr * ptr) :=
  match l with
  | [] => (None, [])
  | e :: l' =>
      if on_chan a e then (Some (fst e), l')
      else let '(r, l'') := remove_first a l' in (r, e :: l'')
  end.

Definition waiters (a : ptr) (l : list (ptr * ptr)) : list ptr :=
  map fst (List.filter (on_chan a) l).

Definition others (a : ptr) (l : list (ptr * ptr)) : list (ptr * ptr) :=
  List.filter (fun e => negb (on_chan a e)) l.

(** Modelled from the spec: the wait-queue facility (thread.h, thread.c) is
    not part of the sources.  [thread_sleep] is "sleep_on(channel)": the
    calling thread is descheduled and queued on the channel, and the call
    returns only after a wakeup; [k] is what the thread does then.
    [thread_wakeup] is "wake_all(channel)" (cv_broadcast's own comment: "Wake
    up all the threads on the cv"), [thread_single_wakeup] is
    "wake_one(channel)": the first queued thread, if any; and
    [thread_hassleepers] is "has_waiters(channel)". *)
Definition thread_sleep {A} (addr : ptr) (k : list frame) : M A :=
  fun w =>
    let t := curthread (st w) in
    Blocked k (upd (fun s => set_queues (sleepers s ++ [(t, addr)]) (runqueue s) s)
                   [EvSleep t addr] w).

Definition thread_wakeup (addr : ptr) : M unit :=
  fun w =>
    let ts := waiters addr (sleepers (st w)) in
    Done tt (upd (fun s => set_queues (others addr (sleepers s)) (runqueue s ++ ts) s)
                 [EvWake addr ts] w).

Definition thread_single_wakeup (addr : ptr) : M unit :=
  fun w =>
    match remove_first addr (sleepers (st w)) with
    | (Some t, rest) =>
        Done tt (upd (fun s => set_queues rest (runqueue s ++ [t]) s) [EvWake addr [t]] w)
    | (None, _) => Done tt (upd (fun s => s) [EvWake addr []] w)
    end.

Definition thread_hassleepers (addr : ptr) : M Z :=
  get (fun s => if existsb (on_chan addr) (sleepers s) then 1 else 0).

(** ** synch.c: semaphore *)

Definition sem_create (namearg : string) (initial_count : Z) : M ptr :=
  assert (0 <=? initial_count) "initial_count >= 0" >>
  let* sem := kmalloc in
  if sem =? NULL then ret NULL
  else
    let* nm := kstrdup namearg in
    if nm =? NULL then kfree sem >> ret NULL
    else
      init sem (OSem {| sem_name := nm; count := initial_count |}) >>
      ret sem.

Definition sem_destroy (sem : ptr) : M unit :=
  assert (negb (sem =? NULL)) "sem != NULL" >>
  let* spl := splhigh in
  let* n := thread_hassleepers sem in
  assert (n =? 0) "thread_hassleepers(sem)==0" >>
  splx spl >>
  let* v := load_sem sem in
  kfree (sem_name v) >>
  kfree sem.

(** The [while] of P, entered with the saved level [spl]; a thread woken
    from [thread_sleep(sem)] comes back here. *)
Definition P_loop (sem : ptr) (spl : Z) : M unit :=
  let* v := load_sem sem in
  if count v =? 0 then thread_sleep sem [FP sem spl]
  else
    assert (0 <? count v) "sem->count>0" >>
    store_count sem (wrap_int (count v - 1)) >>
    splx spl.

Definition P (sem : ptr) : M unit :=
  assert (negb (sem =? NULL)) "sem != NULL" >>
  let* i := get in_interrupt in
  assert (i =? 0) "in_interrupt==0" >>
  let* spl := splhigh in
  P_loop sem spl.

Definition V (sem : ptr) : M unit :=
  assert (negb (sem =? NULL)) "sem != NULL" >>
  let* spl := splhigh in
  let* v := load_sem sem in
  store_count sem (wrap_int (count v + 1)) >>
  let* v' := load_sem sem in
  assert (0 <? count v') "sem->count>0" >>
  thread_wakeup sem >>
  splx spl.

(** ** synch.c: lock *)

Definition lock_create (name : string) : M ptr :=
  let* lk := kmalloc in
  if lk =? NULL then ret NULL
  else
    let* nm := kstrdup name in
    if nm =? NULL then kfree lk >> ret NULL
    else
      init lk (OLock {| lock_name := nm; flag := 0; currentThread := NULL |}) >>
      ret lk.

Definition lock_destroy (lk : ptr) : M unit :=
  assert (negb (lk =? NULL)) "lock != NULL" >>
  let* v := load_lock lk in
  kfree (lock_name v) >>
  kfree lk.

(** The [while] of lock_acquire, entered with the saved level [spl]. *)
Definition lock_acquire_loop (lk : ptr) (spl : Z) : M unit :=
  let* v := load_lock lk in
  if negb (flag v =? 0) then thread_sleep lk [FLockAcquire lk spl]
  else
    store_flag lk 1 >>
    let* t := get curthread in
    store_currentThread lk t >>
    splx spl.

Definition lock_acquire (lk : ptr) : M unit :=
  let* spl := splhigh in
  assert (negb (lk =? NULL)) "lock != NULL" >>
  let* i := get in_interrupt in
  assert (i =? 0) "in_interrupt == 0" >>
  lock_acquire_loop lk spl.

Definition lock_do_i_hold (lk : ptr) : M Z :=
  assert (negb (lk =? NULL)) "lock != NULL" >>
  let* v := load_lock lk in
  let* t := get curthread in
  if currentThread v =? t then ret 1 else ret 0.

Definition lock_release (lk : ptr) : M unit :=
  let* spl := splhigh in
  assert (negb (lk =? NULL)) "lock != NULL" >>
  let* i := get in_interrupt in
  assert (i =? 0) "in_interrupt == 0" >>
  let* h := lock_do_i_hold lk in
  if h =? 0 then ret tt
  else
    store_flag lk 0 >>
    store_currentThread lk NULL >>
    thread_wakeup lk >>
    splx spl.

(** ** synch.c: condition variable *)

Definition cv_create (name : string) : M ptr :=
  let* c := kmalloc in
  if c =? NULL then ret NULL
  else
    let* nm := kstrdup name in
    if nm =? NULL then kfree c >> ret NULL
    else init c (OCv {| cv_name := nm |}) >> ret c.

Definition cv_destroy (c : ptr) : M unit :=
  assert (negb (c =? NULL)) "cv != NULL" >>
  let* v := load_cv c in
  kfree (cv_name v) >>
  kfree c.

(** What is left of cv_wait once [thread_sleep(cv)] has returned. *)
Definition cv_wait_woken (c lk : ptr) (spl : Z) : M unit :=
  call (lock_acquire lk) (FCvWaitAcquire c lk spl) (fun _ => splx spl).

Definition cv_wait (c lk : ptr) : M unit :=
  let* spl := splhigh in
  assert (negb (c =? NULL)) "cv != NULL" >>
  assert (negb (lk =? NULL)) "lock != NULL" >>
  let* i := get in_interrupt in
  assert (i =? 0) "in_interrupt == 0" >>
  lock_release lk >>
  thread_sleep c [FCvWaitSleep c lk spl].

Definition cv_signal (c lk : ptr) : M unit :=
  let* spl := splhigh in
  assert (negb (c =? NULL)) "cv != NULL" >>
  assert (negb (lk =? NULL)) "lock != NULL" >>
  let* i := get in_interrupt in
  assert (i =? 0) "in_interrupt == 0" >>
  thread_single_wakeup c >>
  splx spl.

Definition cv_broadcast (c lk : ptr) : M unit :=
  let* spl := splhigh in
  assert (negb (c =? NULL)) "cv != NULL" >>
  assert (negb (lk =? NULL)) "lock != NULL" >>
  let* i := get in_interrupt in
  assert (i =? 0) "in_interrupt == 0" >>
  thread_wakeup c >>
  splx spl.

(** ** Resuming a woken thread *)

Definition resume_frame (f : frame) : M unit :=
  match f with
  | FP sem spl => P_loop sem spl
  | FLockAcquire lk spl => lock_acquire_loop lk spl
  | FCvWaitSleep c lk spl => cv_wait_woken c lk spl
  | FCvWaitAcquire c lk spl => splx spl
  end.

(** The innermost call runs on; when it returns, its caller does. *)
Fixpoint resume (k : list frame) : M unit :=
  match k with
  | [] => ret tt
  | f :: k' =>
      fun w =>
        match resume_frame f w with
        | Done _ w' => resume k' w'
        | Blocked k1 w' => Blocked (k1 ++ k') w'
        | Panic msg w' => Panic msg w'
        | Fault => Fault
        end
  end.

(** ** Threads calling into synch.c

    Between two calls the scheduler may run any thread.  A call runs with
    interrupts off from its [splhigh] to its [splx] or to the sleep of the
    caller, so the calls and the resumptions of woken threads are the steps
    of the system. *)

Inductive opcall :=
| OpP (sem : ptr)
| OpV (sem : ptr)
| OpAcquire (lk : ptr)
| OpRelease (lk : ptr)
| OpWait (c lk : ptr)
| OpSignal (c lk : ptr)
| OpBroadcast (c lk : ptr).

Definition exec_op (op : opcall) : M unit :=
  match op with
  | OpP sem => P sem
  | OpV sem => V sem
  | OpAcquire lk => lock_acquire lk
  | OpRelease lk => lock_release lk
  | OpWait c lk => cv_wait c lk
  | OpSignal c lk => cv_signal c lk
  | OpBroadcast c lk => cv_broadcast c lk
  end.

(** The kernel state, and for every thread that is inside a call it has not
    finished (asleep, or woken and not yet run): the call and its frames. *)
Record sys := { sw : world; saved : gmap Z (opcall * list frame) }.

Inductive action :=
| ACall (t : ptr) (lvl : Z) (intr : Z) (op : opcall)
    (* thread t, running at level lvl (inside an interrupt handler when
       intr is nonzero), calls op *)
| AResume (t : ptr).
    (* the scheduler switches to the woken thread t *)

Definition enter (t : ptr) (lvl intr : Z) (w : world) : world :=
  {| st := {| heap := heap (st w); kalloc := kalloc (st w); curspl := lvl;
              in_interrupt := intr; curthread := t;
              sleepers := sleepers (st w); runqueue := runqueue (st w) |};
     tr := tr w |}.

Fixpoint remove_thread (t : ptr) (l : list ptr) : list ptr :=
  match l with
  | [] => []
  | x :: l' => if x =? t then l' else x :: remove_thread t l'
  end.

Definition dequeue (t : ptr) (w : world) : world :=
  upd (fun s => set_queues (sleepers s) (remove_thread t (runqueue s)) s) [] w.

(** The state in which the scheduler hands the processor to the woken
    thread [t]: off the run queue, interrupts off, not in a handler. *)
Definition switch_to (t : ptr) (w : world) : world := enter t SPL_HIGH 0 (dequeue t w).

(** One step: the new system and, when a call returned in this step, the
    thread and the call.  [None]: the action is not possible here, or the
    kernel halted. *)
Definition step (a : action) (σ : sys) : option (sys * list (ptr * opcall)) :=
  match a with
  | ACall t lvl intr op =>
      match saved σ !! t with
      | Some _ => None
      | None =>
          match exec_op op (enter t lvl intr (sw σ)) with
          | Done _ w' => Some ({| sw := w'; saved := saved σ |}, [(t, op)])
          | Blocked k w' => Some ({| sw := w'; saved := <[t := (op, k)]> (saved σ) |}, [])
          | _ => None
          end
      end
  | AResume t =>
      match saved σ !! t with
      | Some (op, k) =>
          if existsb (Z.eqb t) (runqueue (st (sw σ))) then
            match resume k (switch_to t (sw σ)) with
            | Done _ w' => Some ({| sw := w'; saved := delete t (saved σ) |}, [(t, op)])
            | Blocked k' w' => Some ({| sw := w'; saved := <[t := (op, k')]> (saved σ) |}, [])
            | _ => None
            end
          else None
      | None => None
      end
  end.

(** A run; the calls that returned, in order. *)
Fixpoint run (acts : list action) (σ : sys) : option (sys * list (ptr * opcall)) :=
  match acts with
  | [] => Some (σ, [])
  | a :: acts' =>
      match step a σ with
      | Some (σ', d) =>
          match run acts' σ' with
          | Some (σ'', d') => Some (σ'', d ++ d')
          | None => None
          end
      | None => None
      end
  end.

Definition is_op (op : opcall) (e : ptr * opcall) : bool :=
  match op, snd e with
  | OpP a, OpP b => a =? b
  | OpV a, OpV b => a =? b
  | _, _ => false
  end.

(** Number of returned calls of [op] (P or V on one semaphore). *)
Definition completed (op : opcall) (d : list (ptr * opcall)) : Z :=
  Z.of_nat (length (List.filter (is_op op) d)).

(** A machine in which nothing is allocated and no thread sleeps. *)
Definition boot (addrs : list Z) : world :=
  {| st := {| heap := ∅; kalloc := addrs; curspl := 0; in_interrupt := 0;
              curthread := 1; sleepers := []; runqueue := [] |};
     tr := [] |}.

Definition sem_count_at (sem : ptr) (w : world) : option Z :=
  match heap (st w) !! sem with Some (OSem v) => Some (count v) | _ => None end.

Definition lock_at (lk : ptr) (w : world) : option (Z * ptr) :=
  match heap (st w) !! lk with
  | Some (OLock v) => Some (flag v, currentThread v)
  | _ => None
  end.

(** ** Notions used in the statements *)

(** The kernel state with these four components replaced. *)
Definition kupd (h : gmap Z obj) (spl : Z) (sl : list (ptr * ptr)) (rq : list ptr)
    (s : kstate) : kstate :=
  {| heap := h; kalloc := kalloc s; curspl := spl;
     in_interrupt := in_interrupt s; curthread := curthread s;
     sleepers := sl; runqueue := rq |}.

Definition is_spl (e : event) : option Z :=
  match e with EvSpl n => Some n | _ => None end.

(** Every interrupt-level change in the log sets the maximum level. *)
Definition interrupts_stay_off (l : list event) : Prop :=
  ∀ n, In (EvSpl n) l → n = SPL_HIGH.

(** The log of a stretch of code that starts by raising the interrupt
    level to the maximum and never lowers it: everything after the first
    event happens with interrupts off. *)
Definition masked_from_start (l : list event) : Prop :=
  ∃ l', l = EvSpl SPL_HIGH :: l' ∧ interrupts_stay_off l'.

(** Event [a] occurs strictly before event [b] in the log. *)
Definition before (a b : event) (l : list event) : Prop :=
  ∃ l1 l2 l3, l = l1 ++ a :: l2 ++ b :: l3.

(** The locks of the heap: held exactly when an owner is recorded. *)
Definition lock_inv (v : lock) : Prop := flag v ≠ 0 ↔ currentThread v ≠ NULL.

Definition locks_ok (w : world) : Prop :=
  ∀ a v, heap (st w) !! a = Some (OLock v) → lock_inv v.

(** A machine with the given objects, caller and sleepers. *)
Definition machine (h : gmap Z obj) (spl intr : Z) (t : ptr) (sl : list (ptr * ptr)) : world :=
  {| st := {| heap := h; kalloc := []; curspl := spl; in_interrupt := intr;
              curthread := t; sleepers := sl; runqueue := [] |};
     tr := [] |}.

(** A semaphore at 100, a lock at 200 (held by thread 1 when [f] is 1 and
    [o] is 1) and a condition variable at 300, with their names. *)
Definition objects (c f : Z) (o : ptr) : gmap Z obj :=
  <[100 := OSem {| sem_name := 101; count := c |}]>
  (<[101 := OStr "sem"]>
  (<[200 := OLock {| lock_name := 201; flag := f; currentThread := o |}]>
  (<[201 := OStr "lock"]>
  (<[300 := OCv {| cv_name := 301 |}]>
  (<[301 := OStr "cv"]> ∅))))).

(** What is left of a cv_wait whose caller sleeps: on the cv, or on the
    lock it has to take back. *)
Definition cv_wait_conts (c lk : ptr) (spl : Z) (k : list frame) : Prop :=
  k = [FCvWaitSleep c lk spl] ∨ ∃ s, k = [FLockAcquire lk s; FCvWaitAcquire c lk spl].

(** The frames a sleeping caller of [op] can have. *)
Definition frames_ok (op : opcall) (k : list frame) : Prop :=
  match op with
  | OpP s => ∃ spl, k = [FP s spl]
  | OpAcquire l => ∃ spl, k = [FLockAcquire l spl]
  | OpWait c l => ∃ spl, cv_wait_conts c l spl k
  | _ => False
  end.

Definition saved_ok (sv : gmap Z (opcall * list frame)) : Prop :=
  ∀ t op k, sv !! t = Some (op, k) → frames_ok op k.

(** What a returned call of [op] adds to the count of semaphore [sem]. *)
Definition delta (sem : ptr) (op : opcall) : Z :=
  match op with
  | OpV s => if s =? sem then 1 else 0
  | OpP s => if s =? sem then -1 else 0
  | _ => 0
  end.

Definition thread_of (a : action) : ptr :=
  match a with ACall t _ _ _ => t | AResume t => t end.

(** The machine [boot [100; 101]] after [sem_create "sem" 0]. *)
Definition sem_world : world :=
  {| st := {| heap := <[100 := OSem {| sem_name := 101; count := 0 |}]>
                      (<[101 := OStr "sem"]> ∅);
              kalloc := []; curspl := 0; in_interrupt := 0; curthread := 1;
              sleepers := []; runqueue := [] |};
     tr := [] |}.

(** ** The claims that do not hold as stated *)

(** V wakes exactly one thread queued on the semaphore, if any. *)
Definition V_wakes_exactly_one : Prop :=
  ∀ w sem v,
    sem ≠ NULL → heap (st w) !! sem = Some (OSem v) → 0 ≤ count v < INT_MAX →
    ∃ w', V sem w = Done tt w' ∧
          sem_count_at sem w' = Some (count v + 1) ∧
          runqueue (st w') = runqueue (st w) ++ take 1 (waiters sem (sleepers (st w))).

(** V, lock_release, cv_signal and cv_broadcast complete when called with
    in_interrupt nonzero. *)
Definition nonblocking_ops_safe_in_interrupt : Prop :=
  ∀ w sem lk c vs vl,
    in_interrupt (st w) ≠ 0 →
    sem ≠ NULL → lk ≠ NULL → c ≠ NULL →
    heap (st w) !! sem = Some (OSem vs) → 0 ≤ count vs < INT_MAX →
    heap (st w) !! lk = Some (OLock vl) →
    (∃ w', V sem w = Done tt w') ∧
    (∃ w', lock_release lk w = Done tt w') ∧
    (∃ w', cv_signal c lk w = Done tt w') ∧
    (∃ w', cv_broadcast c lk w = Done tt w').

(** Destroying a semaphore, lock or cv without waiters succeeds; with a
    waiter (for a lock: or while it is held) an assertion fails. *)
Definition destroy_checks_waiters : Prop :=
  ∀ w a o,
    a ≠ NULL → heap (st w) !! a = Some o →
    match o with
    | OSem _ =>
        if existsb (on_chan a) (sleepers (st w))
        then ∃ msg w', sem_destroy a w = Panic msg w'
        else ∃ w', sem_destroy a w = Done tt w'
    | OLock v =>
        if existsb (on_chan a) (sleepers (st w)) || negb (flag v =? 0)
        then ∃ msg w', lock_destroy a w = Panic msg w'
        else ∃ w', lock_destroy a w = Done tt w'
    | OCv _ =>
        if existsb (on_chan a) (sleepers (st w))
        then ∃ msg w', cv_destroy a w = Panic msg w'
        else ∃ w', cv_destroy a w = Done tt w'
    | _ => True
    end.

(** lock_release by a thread that is not the owner does not crash and
    leaves flag and owner as they are. *)
Definition release_by_other_is_noop : Prop :=
  ∀ w lk v,
    lk ≠ NULL → heap (st w) !! lk = Some (OLock v) →
    currentThread v ≠ curthread (st w) →
    ∃ w', lock_release lk w = Done tt w' ∧
          lock_at lk w' = Some (flag v, currentThread v).

(** ** Notions used for the remaining properties *)

(** The kernel object whose fields a call may store to. *)
Definition writes (op : opcall) : option ptr :=
  match op with
  | OpP sem | OpV sem => Some sem
  | OpAcquire lk | OpRelease lk | OpWait _ lk => Some lk
  | OpSignal _ _ | OpBroadcast _ _ => None
  end.

(** The same machine with another heap. *)
Definition with_heap (h : gmap Z obj) (w : world) : world :=
  {| st := set_heap (fun _ => h) (st w); tr := tr w |}.

(** Nothing but the heap and the allocator's list differs between the two
    machines. *)
Definition only_heap_differs (w w' : world) : Prop :=
  curspl (st w') = curspl (st w) ∧ in_interrupt (st w') = in_interrupt (st w) ∧
  curthread (st w') = curthread (st w) ∧ sleepers (st w') = sleepers (st w) ∧
  runqueue (st w') = runqueue (st w) ∧ tr w' = tr w.

(** A machine with the semaphore, lock and cv of [objects], whose allocator
    will hand out the addresses [addrs] next. *)
Definition machine_alloc (addrs : list Z) : world :=
  {| st := {| heap := objects 0 0 NULL; kalloc := addrs; curspl := 0; in_interrupt := 0;
              curthread := 1; sleepers := []; runqueue := [] |};
     tr := [] |}.

(** The frames of a sleeping call that will go back to interrupt level
    [L] when it returns. *)
Definition returns_at (L : Z) (k : list frame) : Prop :=
  (∃ s, k = [FP s L]) ∨ (∃ l, k = [FLockAcquire l L]) ∨ (∃ c l, cv_wait_conts c l L k).

(** An object before and after a call: it is the same, or the same
    semaphore or lock with other values in count, or in flag and owner. *)
Definition obj_kept (o o' : option obj) : Prop :=
  match o, o' with
  | Some (OSem v), Some (OSem v') => sem_name v' = sem_name v
  | Some (OLock v), Some (OLock v') => lock_name v' = lock_name v
  | _, _ => o' = o
  end.

(** The allocator's view of a request: block [a] can be handed out when
    it is not NULL and not in use. *)
Definition block_free (a : ptr) (h : gmap Z obj) : bool :=
  negb (bool_decide (a = NULL) || bool_decide (is_Some (h !! a))).

(** The two blocks a constructor obtains, when both of its allocations
    succeed: the next address of the allocator's list for the structure,
    and the one after it, with the first now in use, for the name. *)
Definition two_blocks (l : list Z) (h : gmap Z obj) : option (ptr * ptr) :=
  match l with
  | a :: b :: _ =>
      if block_free a h && block_free b (<[a := ORaw]> h) then Some (a, b) else None
  | _ => None
  end.

(** * Proofs *)

(** ** Tactics: running a call symbolically *)

Ltac msimp :=
  unfold cv_wait, cv_wait_woken, cv_signal, cv_broadcast,
    V, P, P_loop, lock_acquire, lock_acquire_loop, lock_release, lock_do_i_hold,
    sem_destroy, lock_destroy, cv_destroy,
    store_count, store_flag, store_currentThread, load_sem, load_lock, load_cv,
    thread_wakeup, thread_single_wakeup, thread_hassleepers, thread_sleep,
    sem_create, lock_create, cv_create, kstrdup, kmalloc, init,
    splhigh, splx, kfree, call, bind, assert, get, modify, ret, upd, kupd,
    set_heap, set_kalloc, set_curspl, set_queues;
  cbn [st tr heap kalloc curspl in_interrupt curthread sleepers runqueue
       sem_name count lock_name flag currentThread cv_name negb].

(** Case analysis on the innermost scrutinee of the goal. *)
Ltac case_inner :=
  match goal with
  | |- context [match ?x with _ => _ end] =>
      lazymatch x with
      | context [match _ with _ => _ end] => fail
      | _ => destruct x eqn:?
      end
  end.

(** Runs the goal's call as far as lookups [H] and fresh stores decide. *)
Ltac no_interrupt :=
  match goal with
  | Hi : in_interrupt (st ?w) = 0 |- context [in_interrupt (st ?w) =? 0] =>
      destruct (Z.eqb_spec (in_interrupt (st w)) 0) as [_|]; [|done]
  end.

Tactic Notation "mrun" "with" constr(H) :=
  repeat (msimp;
          first [rewrite H | rewrite lookup_insert_eq | rewrite Z.eqb_refl | no_interrupt]);
  msimp.

Ltac not_null :=
  repeat match goal with
         | H : ?p ≠ NULL |- context [?p =? NULL] =>
             destruct (Z.eqb_spec p NULL) as [|_]; [done|]; msimp
         end.

(** ** Integers *)

Lemma wrap_int_id z : INT_MIN ≤ z ≤ INT_MAX → wrap_int z = z.
Proof.
  unfold wrap_int, INT_MIN, INT_MAX. intros H.
  rewrite Z.mod_small by lia. lia.
Qed.

Lemma wrap_int_overflow : wrap_int (INT_MAX + 1) = INT_MIN.
Proof. reflexivity. Qed.

(** ** The wait queues *)

Lemma waiters_nil a l : existsb (on_chan a) l = false → waiters a l = [] ∧ others a l = l.
Proof.
  unfold waiters, others. induction l as [|e l IH]; cbn [existsb List.filter map]; [done|].
  destruct (on_chan a e); cbn [orb negb]; [done|].
  intros H. destruct (IH H) as [-> ->]. done.
Qed.

Lemma waiters_cons a l :
  existsb (on_chan a) l = true → ∃ t ts, waiters a l = t :: ts.
Proof.
  unfold waiters. induction l as [|e l IH]; cbn [existsb List.filter map]; [done|].
  destruct (on_chan a e); cbn [orb map]; eauto.
Qed.

Lemma remove_first_none a l :
  existsb (on_chan a) l = false → remove_first a l = (None, l).
Proof.
  induction l as [|e l IH]; cbn [existsb remove_first]; [done|].
  destruct (on_chan a e); cbn [orb]; [done|]. intros H. by rewrite IH.
Qed.

Lemma remove_first_found a l :
  existsb (on_chan a) l = true → ∃ t rest, remove_first a l = (Some t, rest).
Proof.
  induction l as [|e l IH]; cbn [existsb remove_first]; [done|].
  destruct (on_chan a e); cbn [orb]; [eauto|].
  intros H. destruct (IH H) as (t & rest & ->). eauto.
Qed.

(** [thread_single_wakeup] takes the oldest sleeper on the channel and
    leaves the other sleepers, on any channel, in place. *)
Lemma remove_first_some a l t rest :
  remove_first a l = (Some t, rest) →
  ∃ l1 l2, l = l1 ++ (t, a) :: l2 ∧ rest = l1 ++ l2 ∧ waiters a l1 = [] ∧
           waiters a l = t :: waiters a l2.
Proof.
  revert rest. induction l as [|[t' a'] l IH]; intros rest; cbn [remove_first]; [done|].
  unfold on_chan at 1. cbn [snd fst].
  destruct (Z.eqb_spec a' a) as [->|Hne].
  - intros [= -> <-]. exists [], l. unfold waiters, on_chan. cbn [List.filter map snd fst app].
    by rewrite Z.eqb_refl.
  - destruct (remove_first a l) as [r l''] eqn:E. intros [= -> <-].
    destruct (IH _ eq_refl) as (l1 & l2 & -> & -> & H1 & H2).
    exists ((t', a') :: l1), l2. unfold waiters, on_chan in *. cbn [List.filter map snd fst app].
    destruct (Z.eqb_spec a' a); [done|]. done.
Qed.

(** ** Semaphore: what each call does *)

Lemma V_eq w sem v :
  sem ≠ NULL → heap (st w) !! sem = Some (OSem v) → 0 ≤ count v < INT_MAX →
  V sem w =
  Done tt
    {| st := kupd (<[sem := OSem {| sem_name := sem_name v; count := count v + 1 |}]>
                     (heap (st w)))
                  (curspl (st w))
                  (others sem (sleepers (st w)))
                  (runqueue (st w) ++ waiters sem (sleepers (st w)))
                  (st w);
       tr := tr w ++ [EvSpl SPL_HIGH; EvCount sem (count v + 1);
                      EvWake sem (waiters sem (sleepers (st w)));
                      EvSpl (curspl (st w))] |}.
Proof.
  intros Hn Hh Hc. msimp. not_null. mrun with Hh.
  rewrite wrap_int_id by (unfold INT_MIN, INT_MAX in *; lia).
  destruct (Z.ltb_spec 0 (count v + 1)); [|lia].
  msimp. rewrite <- !app_assoc. reflexivity.
Qed.

Lemma V_overflow w sem v :
  sem ≠ NULL → heap (st w) !! sem = Some (OSem v) → count v = INT_MAX →
  ∃ w', V sem w = Panic "sem->count>0" w'.
Proof.
  intros Hn Hh Hc. msimp. not_null. mrun with Hh.
  rewrite Hc, wrap_int_overflow. cbn. eauto.
Qed.

Lemma V_never_blocks sem w k w' : V sem w ≠ Blocked k w'.
Proof. msimp. repeat (case_inner; msimp; try discriminate). Qed.

Lemma P_loop_sleeps w sem spl v :
  heap (st w) !! sem = Some (OSem v) → count v = 0 →
  P_loop sem spl w =
  Blocked [FP sem spl]
    {| st := kupd (heap (st w)) (curspl (st w))
                  (sleepers (st w) ++ [(curthread (st w), sem)]) (runqueue (st w)) (st w);
       tr := tr w ++ [EvSleep (curthread (st w)) sem] |}.
Proof. intros Hh Hc. mrun with Hh. rewrite Hc. reflexivity. Qed.

Lemma P_loop_takes w sem spl v :
  heap (st w) !! sem = Some (OSem v) → 0 < count v ≤ INT_MAX →
  P_loop sem spl w =
  Done tt
    {| st := kupd (<[sem := OSem {| sem_name := sem_name v; count := count v - 1 |}]>
                     (heap (st w)))
                  spl (sleepers (st w)) (runqueue (st w)) (st w);
       tr := tr w ++ [EvCount sem (count v - 1); EvSpl spl] |}.
Proof.
  intros Hh Hc. mrun with Hh.
  destruct (Z.eqb_spec (count v) 0); [lia|].
  destruct (Z.ltb_spec 0 (count v)); [|lia].
  mrun with Hh.
  rewrite wrap_int_id by (unfold INT_MIN, INT_MAX in *; lia).
  rewrite <- !app_assoc. reflexivity.
Qed.

Lemma P_enters w sem :
  sem ≠ NULL → in_interrupt (st w) = 0 →
  P sem w = P_loop sem (curspl (st w))
              {| st := kupd (heap (st w)) SPL_HIGH (sleepers (st w)) (runqueue (st w)) (st w);
                 tr := tr w ++ [EvSpl SPL_HIGH] |}.
Proof.
  intros Hn Hi. msimp. not_null.
  destruct (Z.eqb_spec (in_interrupt (st w)) 0); [|done]. reflexivity.
Qed.

Lemma P_in_interrupt w sem :
  sem ≠ NULL → in_interrupt (st w) ≠ 0 → P sem w = Panic "in_interrupt==0" w.
Proof.
  intros Hn Hi. msimp. not_null.
  destruct (Z.eqb_spec (in_interrupt (st w)) 0); done.
Qed.

(** ** Lock: what each call does *)

Lemma lock_do_i_hold_eq w lk v :
  lk ≠ NULL → heap (st w) !! lk = Some (OLock v) →
  lock_do_i_hold lk w = Done (if currentThread v =? curthread (st w) then 1 else 0) w.
Proof.
  intros Hn Hh. msimp. not_null. mrun with Hh.
  destruct (currentThread v =? curthread (st w)); reflexivity.
Qed.

Lemma lock_acquire_loop_sleeps w lk spl v :
  heap (st w) !! lk = Some (OLock v) → flag v ≠ 0 →
  lock_acquire_loop lk spl w =
  Blocked [FLockAcquire lk spl]
    {| st := kupd (heap (st w)) (curspl (st w))
                  (sleepers (st w) ++ [(curthread (st w), lk)]) (runqueue (st w)) (st w);
       tr := tr w ++ [EvSleep (curthread (st w)) lk] |}.
Proof.
  intros Hh Hf. mrun with Hh.
  destruct (Z.eqb_spec (flag v) 0); [done|]. reflexivity.
Qed.

Lemma lock_acquire_loop_takes w lk spl v :
  heap (st w) !! lk = Some (OLock v) → flag v = 0 →
  lock_acquire_loop lk spl w =
  Done tt
    {| st := kupd (<[lk := OLock {| lock_name := lock_name v; flag := 1;
                                    currentThread := curthread (st w) |}]> (heap (st w)))
                  spl (sleepers (st w)) (runqueue (st w)) (st w);
       tr := tr w ++ [EvFlag lk 1; EvOwner lk (curthread (st w)); EvSpl spl] |}.
Proof.
  intros Hh Hf. mrun with Hh. rewrite Hf. mrun with Hh.
  rewrite insert_insert_eq, <- !app_assoc. reflexivity.
Qed.

Lemma lock_acquire_enters w lk :
  lk ≠ NULL → in_interrupt (st w) = 0 →
  lock_acquire lk w =
  lock_acquire_loop lk (curspl (st w))
    {| st := kupd (heap (st w)) SPL_HIGH (sleepers (st w)) (runqueue (st w)) (st w);
       tr := tr w ++ [EvSpl SPL_HIGH] |}.
Proof.
  intros Hn Hi. msimp. not_null.
  destruct (Z.eqb_spec (in_interrupt (st w)) 0); [|done]. reflexivity.
Qed.

Lemma lock_release_owner w lk v :
  lk ≠ NULL → in_interrupt (st w) = 0 →
  heap (st w) !! lk = Some (OLock v) → currentThread v = curthread (st w) →
  lock_release lk w =
  Done tt
    {| st := kupd (<[lk := OLock {| lock_name := lock_name v; flag := 0;
                                    currentThread := NULL |}]> (heap (st w)))
                  (curspl (st w))
                  (others lk (sleepers (st w)))
                  (runqueue (st w) ++ waiters lk (sleepers (st w)))
                  (st w);
       tr := tr w ++ [EvSpl SPL_HIGH; EvFlag lk 0; EvOwner lk NULL;
                      EvWake lk (waiters lk (sleepers (st w)));
                      EvSpl (curspl (st w))] |}.
Proof.
  intros Hn Hi Hh Ho. msimp. not_null.
  destruct (Z.eqb_spec (in_interrupt (st w)) 0); [|done]. mrun with Hh.
  rewrite Ho. mrun with Hh. cbn [Z.eqb]. mrun with Hh.
  rewrite insert_insert_eq, <- !app_assoc. reflexivity.
Qed.

(** The early [return] of lock_release: [splx] is not reached. *)
Lemma lock_release_other w lk v :
  lk ≠ NULL → in_interrupt (st w) = 0 →
  heap (st w) !! lk = Some (OLock v) → currentThread v ≠ curthread (st w) →
  lock_release lk w =
  Done tt
    {| st := kupd (heap (st w)) SPL_HIGH (sleepers (st w)) (runqueue (st w)) (st w);
       tr := tr w ++ [EvSpl SPL_HIGH] |}.
Proof.
  intros Hn Hi Hh Ho. msimp. not_null.
  destruct (Z.eqb_spec (in_interrupt (st w)) 0); [|done]. mrun with Hh.
  destruct (Z.eqb_spec (currentThread v) (curthread (st w))); [done|]. reflexivity.
Qed.

Lemma lock_release_in_interrupt w lk :
  lk ≠ NULL → in_interrupt (st w) ≠ 0 →
  ∃ w', lock_release lk w = Panic "in_interrupt == 0" w'.
Proof.
  intros Hn Hi. msimp. not_null.
  destruct (Z.eqb_spec (in_interrupt (st w)) 0); [done|]. eauto.
Qed.

Lemma lock_release_never_blocks lk w k w' : lock_release lk w ≠ Blocked k w'.
Proof. msimp. repeat (case_inner; msimp; try discriminate). Qed.

(** ** Condition variable: what each call does *)

Lemma cv_signal_eq w c lk :
  c ≠ NULL → lk ≠ NULL → in_interrupt (st w) = 0 →
  cv_signal c lk w =
  match remove_first c (sleepers (st w)) with
  | (Some t, rest) =>
      Done tt {| st := kupd (heap (st w)) (curspl (st w)) rest (runqueue (st w) ++ [t]) (st w);
                 tr := tr w ++ [EvSpl SPL_HIGH; EvWake c [t]; EvSpl (curspl (st w))] |}
  | (None, _) =>
      Done tt {| st := kupd (heap (st w)) (curspl (st w)) (sleepers (st w)) (runqueue (st w))
                            (st w);
                 tr := tr w ++ [EvSpl SPL_HIGH; EvWake c []; EvSpl (curspl (st w))] |}
  end.
Proof.
  intros Hc Hl Hi. msimp. not_null.
  destruct (Z.eqb_spec (in_interrupt (st w)) 0); [|done]. msimp.
  destruct (remove_first c (sleepers (st w))) as [[t|] rest]; msimp;
    rewrite <- !app_assoc; reflexivity.
Qed.

Lemma cv_broadcast_eq w c lk :
  c ≠ NULL → lk ≠ NULL → in_interrupt (st w) = 0 →
  cv_broadcast c lk w =
  Done tt {| st := kupd (heap (st w)) (curspl (st w)) (others c (sleepers (st w)))
                        (runqueue (st w) ++ waiters c (sleepers (st w))) (st w);
             tr := tr w ++ [EvSpl SPL_HIGH; EvWake c (waiters c (sleepers (st w)));
                            EvSpl (curspl (st w))] |}.
Proof.
  intros Hc Hl Hi. msimp. not_null.
  destruct (Z.eqb_spec (in_interrupt (st w)) 0); [|done]. msimp.
  rewrite <- !app_assoc; reflexivity.
Qed.

Lemma cv_signal_in_interrupt w c lk :
  c ≠ NULL → lk ≠ NULL → in_interrupt (st w) ≠ 0 →
  ∃ w', cv_signal c lk w = Panic "in_interrupt == 0" w'.
Proof.
  intros Hc Hl Hi. msimp. not_null.
  destruct (Z.eqb_spec (in_interrupt (st w)) 0); [done|]. eauto.
Qed.

Lemma cv_broadcast_in_interrupt w c lk :
  c ≠ NULL → lk ≠ NULL → in_interrupt (st w) ≠ 0 →
  ∃ w', cv_broadcast c lk w = Panic "in_interrupt == 0" w'.
Proof.
  intros Hc Hl Hi. msimp. not_null.
  destruct (Z.eqb_spec (in_interrupt (st w)) 0); [done|]. eauto.
Qed.

Lemma cv_wait_owner w c lk v :
  c ≠ NULL → lk ≠ NULL → in_interrupt (st w) = 0 →
  heap (st w) !! lk = Some (OLock v) → currentThread v = curthread (st w) →
  cv_wait c lk w =
  Blocked [FCvWaitSleep c lk (curspl (st w))]
    {| st := kupd (<[lk := OLock {| lock_name := lock_name v; flag := 0;
                                    currentThread := NULL |}]> (heap (st w)))
                  SPL_HIGH
                  (others lk (sleepers (st w)) ++ [(curthread (st w), c)])
                  (runqueue (st w) ++ waiters lk (sleepers (st w)))
                  (st w);
       tr := tr w ++ [EvSpl SPL_HIGH; EvSpl SPL_HIGH; EvFlag lk 0; EvOwner lk NULL;
                      EvWake lk (waiters lk (sleepers (st w)));
                      EvSpl SPL_HIGH; EvSleep (curthread (st w)) c] |}.
Proof.
  intros Hc Hl Hi Hh Ho. msimp. not_null. mrun with Hh.
  rewrite Ho. mrun with Hh. cbn [Z.eqb]. mrun with Hh.
  rewrite insert_insert_eq, <- !app_assoc. reflexivity.
Qed.

(** ** Destruction *)

Lemma sem_destroy_ok w sem v :
  sem ≠ NULL → heap (st w) !! sem = Some (OSem v) →
  existsb (on_chan sem) (sleepers (st w)) = false →
  sem_destroy sem w =
  Done tt {| st := kupd (delete sem (delete (sem_name v) (heap (st w)))) (curspl (st w))
                        (sleepers (st w)) (runqueue (st w)) (st w);
             tr := tr w ++ [EvSpl SPL_HIGH; EvSpl (curspl (st w))] |}.
Proof.
  intros Hn Hh He. msimp. not_null. rewrite He. mrun with Hh.
  rewrite !app_nil_r, <- !app_assoc. reflexivity.
Qed.

Lemma sem_destroy_sleepers w sem :
  sem ≠ NULL → existsb (on_chan sem) (sleepers (st w)) = true →
  ∃ w', sem_destroy sem w = Panic "thread_hassleepers(sem)==0" w'.
Proof. intros Hn He. msimp. not_null. rewrite He. cbn. eauto. Qed.

Lemma lock_destroy_ok w lk v :
  lk ≠ NULL → heap (st w) !! lk = Some (OLock v) →
  lock_destroy lk w =
  Done tt {| st := kupd (delete lk (delete (lock_name v) (heap (st w)))) (curspl (st w))
                        (sleepers (st w)) (runqueue (st w)) (st w);
             tr := tr w |}.
Proof.
  intros Hn Hh. msimp. not_null. mrun with Hh. rewrite !app_nil_r. reflexivity.
Qed.

Lemma cv_destroy_ok w c v :
  c ≠ NULL → heap (st w) !! c = Some (OCv v) →
  cv_destroy c w =
  Done tt {| st := kupd (delete c (delete (cv_name v) (heap (st w)))) (curspl (st w))
                        (sleepers (st w)) (runqueue (st w)) (st w);
             tr := tr w |}.
Proof.
  intros Hn Hh. msimp. not_null. mrun with Hh. rewrite !app_nil_r. reflexivity.
Qed.

(** ** More on the wait queues *)

Lemma waiters_app a l1 l2 : waiters a (l1 ++ l2) = waiters a l1 ++ waiters a l2.
Proof. unfold waiters. by rewrite List.filter_app, map_app. Qed.

Lemma waiters_others a c l :
  waiters a (others c l) = if a =? c then [] else waiters a l.
Proof.
  unfold waiters, others, on_chan. induction l as [|[t x] l IH]; cbn [List.filter map snd].
  - by destruct (a =? c).
  - destruct (Z.eqb_spec x c) as [->|Hx]; cbn [negb List.filter map snd fst].
    + rewrite IH. destruct (Z.eqb_spec a c) as [->|Ha]; [done|].
      destruct (Z.eqb_spec c a); [congruence|done].
    + destruct (Z.eqb_spec x a) as [->|Hxa]; cbn [map fst]; rewrite IH.
      * destruct (Z.eqb_spec a c); [congruence|done].
      * done.
Qed.

Lemma waiters_other_chan a c t : a ≠ c → waiters a [(t, c)] = [].
Proof.
  intros H. unfold waiters, on_chan. cbn [List.filter map snd].
  destruct (Z.eqb_spec c a); [congruence|done].
Qed.

Lemma kupd_same s : kupd (heap s) (curspl s) (sleepers s) (runqueue s) s = s.
Proof. by destruct s. Qed.

(** * The claims *)

(** ** V *)

(** C1, as stated, fails: with threads 1 and 2 both asleep on the
    semaphore at 100, one call of V makes both runnable, because V calls
    [thread_wakeup], which wakes every sleeper on the address. *)
Lemma V_wakes_exactly_one_fails :
  (∃ w', V 100 (machine (objects 0 0 NULL) 0 0 3 [(1, 100); (2, 100)]) = Done tt w' ∧
         runqueue (st w') = [1; 2] ∧ sleepers (st w') = []) ∧
  ¬ V_wakes_exactly_one.
Proof.
  assert (Hv : ∃ w', V 100 (machine (objects 0 0 NULL) 0 0 3 [(1, 100); (2, 100)])
                     = Done tt w' ∧
                     runqueue (st w') = [1; 2] ∧ sleepers (st w') = []).
  { eexists. split; [vm_compute; reflexivity|]. split; reflexivity. }
  split; [exact Hv|].
  intros H. destruct Hv as (w1 & Hw1 & Hr & _).
  destruct (H (machine (objects 0 0 NULL) 0 0 3 [(1, 100); (2, 100)]) 100
              {| sem_name := 101; count := 0 |}) as (w2 & Hw2 & _ & Hq).
  - done.
  - reflexivity.
  - cbn [count]. unfold INT_MAX. lia.
  - rewrite Hw1 in Hw2. injection Hw2 as <-. rewrite Hr in Hq. discriminate Hq.
Qed.

(** C1, amended: V increments count and then wakes every thread queued on
    the semaphore (none are left asleep on it, sleepers on other addresses
    stay asleep), restores the interrupt level, and returns; V never puts
    its caller to sleep, whatever the state. *)
Theorem V_increments_then_wakes_all (w : world) (sem : ptr) (v : semaphore) :
  sem ≠ NULL → heap (st w) !! sem = Some (OSem v) → 0 ≤ count v < INT_MAX →
  (∃ w', V sem w = Done tt w' ∧
         sem_count_at sem w' = Some (count v + 1) ∧
         runqueue (st w') = runqueue (st w) ++ waiters sem (sleepers (st w)) ∧
         waiters sem (sleepers (st w')) = [] ∧
         (∀ a, a ≠ sem → waiters a (sleepers (st w')) = waiters a (sleepers (st w))) ∧
         curspl (st w') = curspl (st w) ∧
         tr w' = tr w ++ [EvSpl SPL_HIGH; EvCount sem (count v + 1);
                          EvWake sem (waiters sem (sleepers (st w)));
                          EvSpl (curspl (st w))]) ∧
  (∀ w0 k w1, V sem w0 ≠ Blocked k w1).
Proof.
  intros Hn Hh Hc. split; [|intros; apply V_never_blocks].
  eexists. split; [by apply V_eq|].
  unfold sem_count_at. cbn [st tr kupd heap runqueue sleepers curspl].
  rewrite lookup_insert_eq. cbn [count].
  repeat split.
  - rewrite waiters_others, Z.eqb_refl. done.
  - intros a Ha. rewrite waiters_others. destruct (Z.eqb_spec a sem); done.
Qed.

Lemma V_increments_then_wakes_all_witness :
  (∃ w', V 100 (machine (objects 0 0 NULL) 0 0 3 [(1, 100); (2, 100); (4, 300)])
         = Done tt w' ∧
         sem_count_at 100 w' = Some (0 + 1) ∧
         runqueue (st w') = [] ++ waiters 100 [(1, 100); (2, 100); (4, 300)] ∧
         waiters 100 (sleepers (st w')) = [] ∧
         (∀ a, a ≠ 100 → waiters a (sleepers (st w'))
                          = waiters a [(1, 100); (2, 100); (4, 300)]) ∧
         curspl (st w') = 0 ∧
         tr w' = [] ++ [EvSpl SPL_HIGH; EvCount 100 (0 + 1);
                        EvWake 100 (waiters 100 [(1, 100); (2, 100); (4, 300)]);
                        EvSpl 0]) ∧
  (∀ w0 k w1, V 100 w0 ≠ Blocked k w1).
Proof.
  apply (V_increments_then_wakes_all
           (machine (objects 0 0 NULL) 0 0 3 [(1, 100); (2, 100); (4, 300)]) 100
           {| sem_name := 101; count := 0 |}).
  - vm_compute. discriminate.
  - reflexivity.
  - vm_compute. split; [discriminate | reflexivity].
Defined.

(** ** Interrupt context *)

(** C2, as stated, fails: called inside an interrupt handler
    (in_interrupt = 1) by the owner of the lock at 200, lock_release stops
    at its [assert(in_interrupt == 0)]; so do cv_signal and cv_broadcast. *)
Lemma nonblocking_ops_safe_in_interrupt_fails :
  (∃ w', lock_release 200 (machine (objects 0 1 1) 0 1 1 []) = Panic "in_interrupt == 0" w') ∧
  (∃ w', cv_signal 300 200 (machine (objects 0 1 1) 0 1 1 []) = Panic "in_interrupt == 0" w') ∧
  (∃ w', cv_broadcast 300 200 (machine (objects 0 1 1) 0 1 1 [])
         = Panic "in_interrupt == 0" w') ∧
  ¬ nonblocking_ops_safe_in_interrupt.
Proof.
  split; [eexists; vm_compute; reflexivity|].
  split; [eexists; vm_compute; reflexivity|].
  split; [eexists; vm_compute; reflexivity|].
  intros H.
  destruct (H (machine (objects 0 1 1) 0 1 1 []) 100 200 300
              {| sem_name := 101; count := 0 |}
              {| lock_name := 201; flag := 1; currentThread := 1 |})
    as (_ & (w' & Hr) & _); done.
Qed.

(** C2, amended: of the four operations only V may be called from
    interrupt context.  With in_interrupt nonzero V completes as usual;
    lock_release, cv_signal and cv_broadcast each fail their
    [assert(in_interrupt == 0)] and the kernel halts. *)
Theorem only_V_is_safe_in_interrupt (w : world) (sem lk c : ptr) (v : semaphore) :
  in_interrupt (st w) ≠ 0 →
  sem ≠ NULL → lk ≠ NULL → c ≠ NULL →
  heap (st w) !! sem = Some (OSem v) → 0 ≤ count v < INT_MAX →
  (∃ w', V sem w = Done tt w' ∧ sem_count_at sem w' = Some (count v + 1) ∧
         runqueue (st w') = runqueue (st w) ++ waiters sem (sleepers (st w)) ∧
         curspl (st w') = curspl (st w)) ∧
  (∃ w', lock_release lk w = Panic "in_interrupt == 0" w') ∧
  (∃ w', cv_signal c lk w = Panic "in_interrupt == 0" w') ∧
  (∃ w', cv_broadcast c lk w = Panic "in_interrupt == 0" w').
Proof.
  intros Hi Hs Hl Hc Hh Hcnt. repeat split.
  - eexists. split; [by apply V_eq|].
    unfold sem_count_at. cbn [st kupd heap runqueue curspl].
    rewrite lookup_insert_eq. done.
  - by apply lock_release_in_interrupt.
  - by apply cv_signal_in_interrupt.
  - by apply cv_broadcast_in_interrupt.
Qed.

Lemma only_V_is_safe_in_interrupt_witness :
  (∃ w', V 100 (machine (objects 0 1 1) 0 1 1 [(2, 100)]) = Done tt w' ∧
         sem_count_at 100 w' = Some (0 + 1) ∧
         runqueue (st w') = [] ++ waiters 100 [(2, 100)] ∧
         curspl (st w') = 0) ∧
  (∃ w', lock_release 200 (machine (objects 0 1 1) 0 1 1 [(2, 100)])
         = Panic "in_interrupt == 0" w') ∧
  (∃ w', cv_signal 300 200 (machine (objects 0 1 1) 0 1 1 [(2, 100)])
         = Panic "in_interrupt == 0" w') ∧
  (∃ w', cv_broadcast 300 200 (machine (objects 0 1 1) 0 1 1 [(2, 100)])
         = Panic "in_interrupt == 0" w').
Proof.
  apply (only_V_is_safe_in_interrupt (machine (objects 0 1 1) 0 1 1 [(2, 100)])
           100 200 300 {| sem_name := 101; count := 0 |}).
  - vm_compute. discriminate.
  - vm_compute. discriminate.
  - vm_compute. discriminate.
  - vm_compute. discriminate.
  - reflexivity.
  - vm_compute. split; [discriminate | reflexivity].
Defined.

(** ** Destruction *)

(** C3, as stated, fails: the lock at 200 is held by thread 1 and thread 2
    sleeps on it; lock_destroy frees it all the same.  The cv at 300 with
    thread 2 asleep on it is destroyed as well. *)
Lemma destroy_checks_waiters_fails :
  (∃ w', lock_destroy 200 (machine (objects 0 1 1) 0 0 1 [(2, 200)]) = Done tt w' ∧
         heap (st w') !! 200 = None ∧ sleepers (st w') = [(2, 200)]) ∧
  (∃ w', cv_destroy 300 (machine (objects 0 1 1) 0 0 1 [(2, 300)]) = Done tt w' ∧
         heap (st w') !! 300 = None ∧ sleepers (st w') = [(2, 300)]) ∧
  ¬ destroy_checks_waiters.
Proof.
  split; [eexists; split; [vm_compute; reflexivity | split; reflexivity]|].
  split; [eexists; split; [vm_compute; reflexivity | split; reflexivity]|].
  intros H.
  specialize (H (machine (objects 0 1 1) 0 0 1 [(2, 200)]) 200
                (OLock {| lock_name := 201; flag := 1; currentThread := 1 |})).
  cbv beta iota in H.
  destruct H as (msg & w' & Hd); [done | reflexivity |].
  vm_compute in Hd. discriminate Hd.
Qed.

(** C3, amended: destroying a semaphore, lock or cv on which no thread
    sleeps succeeds; destroying a semaphore on which a thread sleeps fails
    the assertion [thread_hassleepers(sem)==0].  lock_destroy and cv_destroy
    check nothing but the pointer: they succeed whether or not threads sleep
    on the object and whether or not the lock is held. *)
Theorem destroy_checks_semaphore_only (w : world) (a : ptr) :
  a ≠ NULL →
  (∀ v, heap (st w) !! a = Some (OSem v) →
        if existsb (on_chan a) (sleepers (st w))
        then ∃ w', sem_destroy a w = Panic "thread_hassleepers(sem)==0" w'
        else ∃ w', sem_destroy a w = Done tt w' ∧ heap (st w') !! a = None) ∧
  (∀ v, heap (st w) !! a = Some (OLock v) →
        ∃ w', lock_destroy a w = Done tt w' ∧ heap (st w') !! a = None ∧
              sleepers (st w') = sleepers (st w)) ∧
  (∀ v, heap (st w) !! a = Some (OCv v) →
        ∃ w', cv_destroy a w = Done tt w' ∧ heap (st w') !! a = None ∧
              sleepers (st w') = sleepers (st w)).
Proof.
  intros Hn. repeat split.
  - intros v Hh. destruct (existsb _ _) eqn:He.
    + by apply sem_destroy_sleepers.
    + eexists. split; [by apply sem_destroy_ok|].
      cbn [st kupd heap]. apply lookup_delete_eq.
  - intros v Hh. eexists. split; [by apply lock_destroy_ok|].
    cbn [st kupd heap sleepers]. split; [apply lookup_delete_eq | done].
  - intros v Hh. eexists. split; [by apply cv_destroy_ok|].
    cbn [st kupd heap sleepers]. split; [apply lookup_delete_eq | done].
Qed.

Lemma destroy_checks_semaphore_only_witness :
  (∃ w', sem_destroy 100 (machine (objects 0 1 1) 0 0 1 [(2, 100)])
         = Panic "thread_hassleepers(sem)==0" w') ∧
  (∃ w', sem_destroy 100 (machine (objects 0 1 1) 0 0 1 [(2, 200)]) = Done tt w' ∧
         heap (st w') !! 100 = None) ∧
  (∃ w', lock_destroy 200 (machine (objects 0 1 1) 0 0 1 [(2, 200)]) = Done tt w' ∧
         heap (st w') !! 200 = None ∧ sleepers (st w') = [(2, 200)]) ∧
  (∃ w', cv_destroy 300 (machine (objects 0 1 1) 0 0 1 [(2, 300)]) = Done tt w' ∧
         heap (st w') !! 300 = None ∧ sleepers (st w') = [(2, 300)]).
Proof.
  split.
  { destruct (destroy_checks_semaphore_only
                (machine (objects 0 1 1) 0 0 1 [(2, 100)]) 100) as (H & _ & _).
    - vm_compute. discriminate.
    - exact (H {| sem_name := 101; count := 0 |} eq_refl). }
  split.
  { destruct (destroy_checks_semaphore_only
                (machine (objects 0 1 1) 0 0 1 [(2, 200)]) 100) as (H & _ & _).
    - vm_compute. discriminate.
    - exact (H {| sem_name := 101; count := 0 |} eq_refl). }
  split.
  { destruct (destroy_checks_semaphore_only
                (machine (objects 0 1 1) 0 0 1 [(2, 200)]) 200) as (_ & H & _).
    - vm_compute. discriminate.
    - exact (H {| lock_name := 201; flag := 1; currentThread := 1 |} eq_refl). }
  destruct (destroy_checks_semaphore_only
              (machine (objects 0 1 1) 0 0 1 [(2, 300)]) 300) as (_ & _ & H).
  - vm_compute. discriminate.
  - exact (H {| cv_name := 301 |} eq_refl).
Defined.

(** ** lock_release by a thread that does not hold the lock *)

(** C4, as stated, fails: thread 2, which does not hold the lock at 200
    (thread 1 does), calls lock_release inside an interrupt handler; the
    call stops at [assert(in_interrupt == 0)], before the ownership test. *)
Lemma release_by_other_is_noop_fails :
  (∃ w', lock_release 200 (machine (objects 0 1 1) 0 1 2 []) = Panic "in_interrupt == 0" w') ∧
  ¬ release_by_other_is_noop.
Proof.
  split; [eexists; vm_compute; reflexivity|].
  intros H.
  destruct (H (machine (objects 0 1 1) 0 1 2 []) 200
              {| lock_name := 201; flag := 1; currentThread := 1 |})
    as (w' & Hr & _); [done | reflexivity | done |].
  vm_compute in Hr. discriminate Hr.
Qed.

(** C4, amended: outside interrupt context (in_interrupt == 0), a call to
    lock_release by a thread that is not the recorded owner returns without
    crashing, leaves the lock's flag and owner (and every other kernel
    object) unchanged, and wakes no thread. *)
Theorem release_by_other_outside_interrupt (w : world) (lk : ptr) (v : lock) :
  lk ≠ NULL → in_interrupt (st w) = 0 →
  heap (st w) !! lk = Some (OLock v) →
  currentThread v ≠ curthread (st w) →
  ∃ w', lock_release lk w = Done tt w' ∧
        lock_at lk w' = Some (flag v, currentThread v) ∧
        heap (st w') = heap (st w) ∧
        sleepers (st w') = sleepers (st w) ∧
        runqueue (st w') = runqueue (st w).
Proof.
  intros Hn Hi Hh Ho. eexists. split; [by eapply lock_release_other|].
  unfold lock_at. cbn [st kupd heap sleepers runqueue]. rewrite Hh. done.
Qed.

Lemma release_by_other_outside_interrupt_witness :
  ∃ w', lock_release 200 (machine (objects 0 1 1) 0 0 2 [(3, 200)]) = Done tt w' ∧
        lock_at 200 w' = Some (1, 1) ∧
        heap (st w') = objects 0 1 1 ∧
        sleepers (st w') = [(3, 200)] ∧
        runqueue (st w') = [].
Proof.
  apply (release_by_other_outside_interrupt (machine (objects 0 1 1) 0 0 2 [(3, 200)]) 200
           {| lock_name := 201; flag := 1; currentThread := 1 |}).
  - vm_compute. discriminate.
  - reflexivity.
  - reflexivity.
  - vm_compute. discriminate.
Defined.

(** C9: when lock_release is called by a thread that is not the recorded
    owner it returns early, and the interrupt level it raised on entry is
    not restored: the caller goes on at the maximum level, [splhigh] being
    the only level change of the call.  When the owner calls it, the level
    it had on entry is restored before the return. *)
Theorem lock_release_early_return_keeps_spl_high (w : world) (lk : ptr) (v : lock) :
  lk ≠ NULL → in_interrupt (st w) = 0 →
  heap (st w) !! lk = Some (OLock v) →
  (currentThread v ≠ curthread (st w) →
   ∃ w', lock_release lk w = Done tt w' ∧
         curspl (st w') = SPL_HIGH ∧
         tr w' = tr w ++ [EvSpl SPL_HIGH]) ∧
  (currentThread v = curthread (st w) →
   ∃ w', lock_release lk w = Done tt w' ∧
         curspl (st w') = curspl (st w) ∧
         ∃ l, tr w' = tr w ++ EvSpl SPL_HIGH :: l ++ [EvSpl (curspl (st w))]).
Proof.
  intros Hn Hi Hh. split; intros Ho.
  - eexists. split; [by eapply lock_release_other|]. done.
  - eexists. split; [by eapply lock_release_owner|].
    cbn [st tr kupd curspl]. split; [done|].
    by exists [EvFlag lk 0; EvOwner lk NULL; EvWake lk (waiters lk (sleepers (st w)))].
Qed.

Lemma lock_release_early_return_keeps_spl_high_witness :
  (∃ w', lock_release 200 (machine (objects 0 1 1) 0 0 2 []) = Done tt w' ∧
         curspl (st w') = SPL_HIGH ∧ tr w' = [] ++ [EvSpl SPL_HIGH]) ∧
  (∃ w', lock_release 200 (machine (objects 0 1 1) 0 0 1 []) = Done tt w' ∧
         curspl (st w') = 0 ∧
         ∃ l, tr w' = [] ++ EvSpl SPL_HIGH :: l ++ [EvSpl 0]).
Proof.
  split.
  - destruct (lock_release_early_return_keeps_spl_high
                (machine (objects 0 1 1) 0 0 2 []) 200
                {| lock_name := 201; flag := 1; currentThread := 1 |}) as (H & _).
    + vm_compute. discriminate.
    + reflexivity.
    + reflexivity.
    + apply H. vm_compute. discriminate.
  - destruct (lock_release_early_return_keeps_spl_high
                (machine (objects 0 1 1) 0 0 1 []) 200
                {| lock_name := 201; flag := 1; currentThread := 1 |}) as (_ & H).
    + vm_compute. discriminate.
    + reflexivity.
    + reflexivity.
    + apply H. reflexivity.
Defined.

(** ** cv_signal and cv_broadcast *)

(** C8: cv_signal makes runnable exactly one thread asleep on the cv, the
    oldest, when there is one, and changes nothing of the kernel state when
    there is none; cv_broadcast makes runnable all threads asleep on the cv.
    Neither touches the lock (no kernel object changes), and sleepers on
    other addresses stay asleep. *)
Theorem cv_signal_broadcast_frame (w : world) (c lk : ptr) :
  c ≠ NULL → lk ≠ NULL → in_interrupt (st w) = 0 →
  (∃ w', cv_signal c lk w = Done tt w' ∧
         heap (st w') = heap (st w) ∧
         (∀ a, a ≠ c → waiters a (sleepers (st w')) = waiters a (sleepers (st w))) ∧
         match waiters c (sleepers (st w)) with
         | [] => st w' = st w
         | t :: ts => runqueue (st w') = runqueue (st w) ++ [t] ∧
                      waiters c (sleepers (st w')) = ts
         end) ∧
  (∃ w', cv_broadcast c lk w = Done tt w' ∧
         heap (st w') = heap (st w) ∧
         (∀ a, a ≠ c → waiters a (sleepers (st w')) = waiters a (sleepers (st w))) ∧
         runqueue (st w') = runqueue (st w) ++ waiters c (sleepers (st w)) ∧
         waiters c (sleepers (st w')) = []).
Proof.
  intros Hc Hl Hi. split.
  - rewrite cv_signal_eq by done.
    destruct (remove_first c (sleepers (st w))) as [[t|] rest] eqn:E.
    + destruct (remove_first_some _ _ _ _ E) as (l1 & l2 & Hs & -> & H1 & H2).
      eexists. split; [reflexivity|]. cbn [st kupd heap sleepers runqueue].
      split; [done|]. split.
      * intros a Ha. rewrite Hs, !waiters_app.
        change ((t, c) :: l2) with ([(t, c)] ++ l2).
        by rewrite waiters_app, waiters_other_chan.
      * rewrite H2. split; [done|]. by rewrite waiters_app, H1.
    + eexists. split; [reflexivity|]. cbn [st kupd heap sleepers runqueue].
      split; [done|]. split; [done|].
      destruct (existsb (on_chan c) (sleepers (st w))) eqn:He.
      * destruct (remove_first_found _ _ He) as (t & r & Hf). congruence.
      * destruct (waiters_nil _ _ He) as [-> _]. apply kupd_same.
  - rewrite cv_broadcast_eq by done.
    eexists. split; [reflexivity|]. cbn [st kupd heap sleepers runqueue].
    split; [done|]. split; [|split; [done|]].
    + intros a Ha. rewrite waiters_others. destruct (Z.eqb_spec a c); done.
    + by rewrite waiters_others, Z.eqb_refl.
Qed.

Lemma cv_signal_broadcast_frame_witness :
  (∃ w', cv_signal 300 200 (machine (objects 0 1 1) 0 0 1 [(2, 300); (3, 100); (4, 300)])
         = Done tt w' ∧
         heap (st w') = objects 0 1 1 ∧
         (∀ a, a ≠ 300 → waiters a (sleepers (st w'))
                          = waiters a [(2, 300); (3, 100); (4, 300)]) ∧
         runqueue (st w') = [] ++ [2] ∧
         waiters 300 (sleepers (st w')) = [4]) ∧
  (∃ w', cv_broadcast 300 200 (machine (objects 0 1 1) 0 0 1 [(2, 300); (3, 100); (4, 300)])
         = Done tt w' ∧
         heap (st w') = objects 0 1 1 ∧
         (∀ a, a ≠ 300 → waiters a (sleepers (st w'))
                          = waiters a [(2, 300); (3, 100); (4, 300)]) ∧
         runqueue (st w') = [] ++ waiters 300 [(2, 300); (3, 100); (4, 300)] ∧
         waiters 300 (sleepers (st w')) = []).
Proof.
  apply (cv_signal_broadcast_frame
           (machine (objects 0 1 1) 0 0 1 [(2, 300); (3, 100); (4, 300)]) 300 200).
  - vm_compute. discriminate.
  - vm_compute. discriminate.
  - reflexivity.
Defined.

(** ** Resumption of a woken thread *)

Lemma resume_one f w :
  resume [f] w =
  match resume_frame f w with
  | Done _ w' => Done tt w'
  | Blocked k w' => Blocked (k ++ []) w'
  | Panic msg w' => Panic msg w'
  | Fault => Fault
  end.
Proof. reflexivity. Qed.

Lemma resume_P_takes w sem spl v :
  heap (st w) !! sem = Some (OSem v) → 0 < count v ≤ INT_MAX →
  ∃ w', resume [FP sem spl] w = Done tt w' ∧
        sem_count_at sem w' = Some (count v - 1) ∧ curspl (st w') = spl.
Proof.
  intros Hh Hc. rewrite resume_one. cbn [resume_frame].
  erewrite P_loop_takes by done. eexists. split; [done|].
  unfold sem_count_at. cbn [st kupd heap curspl]. by rewrite lookup_insert_eq.
Qed.

Lemma resume_acquire_takes w lk spl v :
  heap (st w) !! lk = Some (OLock v) → flag v = 0 →
  ∃ w', resume [FLockAcquire lk spl] w = Done tt w' ∧
        lock_at lk w' = Some (1, curthread (st w)) ∧ curspl (st w') = spl.
Proof.
  intros Hh Hf. rewrite resume_one. cbn [resume_frame].
  erewrite lock_acquire_loop_takes by done. eexists. split; [done|].
  unfold lock_at. cbn [st kupd heap curspl]. by rewrite lookup_insert_eq.
Qed.

(** A woken cv_wait with the lock free: the lock is taken and the caller's
    level restored. *)
Lemma resume_cv_wait_takes w c lk spl v k :
  cv_wait_conts c lk spl k →
  lk ≠ NULL → in_interrupt (st w) = 0 →
  heap (st w) !! lk = Some (OLock v) → flag v = 0 →
  ∃ w', resume k w = Done tt w' ∧
        lock_at lk w' = Some (1, curthread (st w)) ∧ curspl (st w') = spl.
Proof.
  intros [->|[s ->]] Hn Hi Hh Hf.
  - rewrite resume_one. cbn [resume_frame]. unfold cv_wait_woken, call.
    rewrite lock_acquire_enters by done.
    erewrite lock_acquire_loop_takes; [| exact Hh | exact Hf].
    msimp. eexists. split; [done|].
    unfold lock_at. cbn [st heap curspl]. by rewrite lookup_insert_eq.
  - cbn [resume resume_frame].
    erewrite lock_acquire_loop_takes; [| exact Hh | exact Hf].
    msimp. eexists. split; [done|].
    unfold lock_at. cbn [st heap curspl]. by rewrite lookup_insert_eq.
Qed.

(** A woken cv_wait with the lock held: the caller sleeps on the lock, and
    the lock is as it was. *)
Lemma resume_cv_wait_sleeps w c lk spl v k :
  cv_wait_conts c lk spl k →
  lk ≠ NULL → in_interrupt (st w) = 0 →
  heap (st w) !! lk = Some (OLock v) → flag v ≠ 0 →
  ∃ k' w', resume k w = Blocked k' w' ∧ cv_wait_conts c lk spl k' ∧
           lock_at lk w' = Some (flag v, currentThread v) ∧
           sleepers (st w') = sleepers (st w) ++ [(curthread (st w), lk)].
Proof.
  intros [->|[s ->]] Hn Hi Hh Hf.
  - rewrite resume_one. cbn [resume_frame]. unfold cv_wait_woken, call.
    rewrite lock_acquire_enters by done.
    erewrite lock_acquire_loop_sleeps; [| exact Hh | exact Hf].
    do 2 eexists. split; [done|]. split; [right; by eexists|].
    unfold lock_at. cbn [st kupd heap sleepers curthread]. by rewrite Hh.
  - cbn [resume resume_frame].
    erewrite lock_acquire_loop_sleeps; [| exact Hh | exact Hf].
    do 2 eexists. split; [done|]. split; [right; by eexists|].
    unfold lock_at. cbn [st kupd heap sleepers curthread]. by rewrite Hh.
Qed.

(** ** Order of update and wakeup *)

Lemma before_intro (a b : event) l1 l2 l3 : before a b (l1 ++ a :: l2 ++ b :: l3).
Proof. by exists l1, l2, l3. Qed.

Lemma waiters_in_runqueue t a l rq : In t (waiters a l) → In t (rq ++ waiters a l).
Proof. intros H. apply in_or_app. by right. Qed.

(** C6: in V the store to count comes before the wakeup, and in
    lock_release by the owner the stores that clear flag and owner come
    before the wakeup.  This holds for every call of V that passes its
    assertions (whoever calls it, also from an interrupt handler) and for
    every call of lock_release by the owner outside interrupt context.
    Every thread that slept on the semaphore (lock) is runnable afterwards,
    and when the scheduler runs it next, its re-check finds count > 0 (the
    lock free): it takes the semaphore (the lock) instead of sleeping
    again. *)
Theorem update_before_wakeup :
  (∀ (w : world) (sem : ptr) (vs : semaphore),
     sem ≠ NULL → heap (st w) !! sem = Some (OSem vs) → 0 ≤ count vs < INT_MAX →
     ∃ w' l,
       V sem w = Done tt w' ∧ tr w' = tr w ++ l ∧
       l = [EvSpl SPL_HIGH; EvCount sem (count vs + 1);
            EvWake sem (waiters sem (sleepers (st w))); EvSpl (curspl (st w))] ∧
       before (EvCount sem (count vs + 1)) (EvWake sem (waiters sem (sleepers (st w)))) l ∧
       sem_count_at sem w' = Some (count vs + 1) ∧
       ∀ t spl, In t (waiters sem (sleepers (st w))) →
         In t (runqueue (st w')) ∧
         ∃ w'', resume [FP sem spl] (switch_to t w') = Done tt w'' ∧
                sem_count_at sem w'' = Some (count vs)) ∧
  (∀ (w : world) (lk : ptr) (vl : lock),
     lk ≠ NULL → heap (st w) !! lk = Some (OLock vl) →
     in_interrupt (st w) = 0 → currentThread vl = curthread (st w) →
     ∃ w' l,
       lock_release lk w = Done tt w' ∧ tr w' = tr w ++ l ∧
       l = [EvSpl SPL_HIGH; EvFlag lk 0; EvOwner lk NULL;
            EvWake lk (waiters lk (sleepers (st w))); EvSpl (curspl (st w))] ∧
       before (EvFlag lk 0) (EvWake lk (waiters lk (sleepers (st w)))) l ∧
       before (EvOwner lk NULL) (EvWake lk (waiters lk (sleepers (st w)))) l ∧
       lock_at lk w' = Some (0, NULL) ∧
       ∀ t spl, In t (waiters lk (sleepers (st w))) →
         In t (runqueue (st w')) ∧
         ∃ w'', resume [FLockAcquire lk spl] (switch_to t w') = Done tt w'' ∧
                lock_at lk w'' = Some (1, t)).
Proof.
  split.
  - intros w sem vs Hs Hhs Hc.
    do 2 eexists. split; [by apply V_eq|]. cbn [st tr kupd heap runqueue].
    split; [reflexivity|]. split; [reflexivity|].
    split; [apply (before_intro _ _ [EvSpl SPL_HIGH] [] [_])|].
    split; [unfold sem_count_at; cbn [st kupd heap]; by rewrite lookup_insert_eq|].
    intros t spl Ht. split; [by apply waiters_in_runqueue|].
    edestruct (resume_P_takes
                 (switch_to t
                    {| st := kupd (<[sem := OSem {| sem_name := sem_name vs;
                                                     count := count vs + 1 |}]> (heap (st w)))
                                  (curspl (st w)) (others sem (sleepers (st w)))
                                  (runqueue (st w) ++ waiters sem (sleepers (st w))) (st w);
                       tr := tr w ++ [EvSpl SPL_HIGH; EvCount sem (count vs + 1);
                                      EvWake sem (waiters sem (sleepers (st w)));
                                      EvSpl (curspl (st w))] |})
                 sem spl {| sem_name := sem_name vs; count := count vs + 1 |})
      as (w'' & Hr & Hcnt & _).
    + cbn. apply lookup_insert_eq.
    + cbn [count]. lia.
    + exists w''. split; [exact Hr|]. rewrite Hcnt. cbn [count]. f_equal. lia.
  - intros w lk vl Hl Hhl Hi Ho.
    do 2 eexists. split; [by apply lock_release_owner|]. cbn [st tr kupd heap runqueue].
    split; [reflexivity|]. split; [reflexivity|].
    split; [apply (before_intro _ _ [EvSpl SPL_HIGH] [_] [_])|].
    split; [apply (before_intro _ _ [EvSpl SPL_HIGH; _] [] [_])|].
    split; [unfold lock_at; cbn [st kupd heap]; by rewrite lookup_insert_eq|].
    intros t spl Ht. split; [by apply waiters_in_runqueue|].
    edestruct (resume_acquire_takes
                 (switch_to t
                    {| st := kupd (<[lk := OLock {| lock_name := lock_name vl; flag := 0;
                                                    currentThread := NULL |}]> (heap (st w)))
                                  (curspl (st w)) (others lk (sleepers (st w)))
                                  (runqueue (st w) ++ waiters lk (sleepers (st w))) (st w);
                       tr := tr w ++ [EvSpl SPL_HIGH; EvFlag lk 0; EvOwner lk NULL;
                                      EvWake lk (waiters lk (sleepers (st w)));
                                      EvSpl (curspl (st w))] |})
                 lk spl {| lock_name := lock_name vl; flag := 0; currentThread := NULL |})
      as (w'' & Hr & Hlk & _).
    + cbn. apply lookup_insert_eq.
    + done.
    + exists w''. split; [exact Hr|]. exact Hlk.
Qed.

(** V called inside an interrupt handler that interrupted thread 3, which
    holds no lock, with thread 2 asleep on the semaphore; and lock_release
    by the owner, thread 1, with thread 3 asleep on the lock. *)
Lemma update_before_wakeup_witness :
  (let w := machine (objects 0 1 1) 4 1 3 [(2, 100)] in
   ∃ w' l,
     V 100 w = Done tt w' ∧ tr w' = tr w ++ l ∧
     l = [EvSpl SPL_HIGH; EvCount 100 1; EvWake 100 [2]; EvSpl 4] ∧
     before (EvCount 100 1) (EvWake 100 [2]) l ∧
     sem_count_at 100 w' = Some 1 ∧
     ∀ t spl, In t [2] →
       In t (runqueue (st w')) ∧
       ∃ w'', resume [FP 100 spl] (switch_to t w') = Done tt w'' ∧
              sem_count_at 100 w'' = Some 0) ∧
  (let w := machine (objects 0 1 1) 0 0 1 [(2, 100); (3, 200)] in
   ∃ w' l,
     lock_release 200 w = Done tt w' ∧ tr w' = tr w ++ l ∧
     l = [EvSpl SPL_HIGH; EvFlag 200 0; EvOwner 200 NULL; EvWake 200 [3]; EvSpl 0] ∧
     before (EvFlag 200 0) (EvWake 200 [3]) l ∧
     before (EvOwner 200 NULL) (EvWake 200 [3]) l ∧
     lock_at 200 w' = Some (0, NULL) ∧
     ∀ t spl, In t [3] →
       In t (runqueue (st w')) ∧
       ∃ w'', resume [FLockAcquire 200 spl] (switch_to t w') = Done tt w'' ∧
              lock_at 200 w'' = Some (1, t)).
Proof.
  destruct update_before_wakeup as [HV HL]. split.
  - intros w. apply (HV w 100 {| sem_name := 101; count := 0 |}).
    + vm_compute. discriminate.
    + reflexivity.
    + vm_compute. split; [discriminate | reflexivity].
  - intros w. apply (HL w 200 {| lock_name := 201; flag := 1; currentThread := 1 |}).
    + vm_compute. discriminate.
    + reflexivity.
    + reflexivity.
    + reflexivity.
Defined.

(** ** cv_wait *)

Lemma in_waiters t a l : In (t, a) l → In t (waiters a l).
Proof.
  intros H. unfold waiters. apply in_map_iff. exists (t, a). split; [done|].
  apply List.filter_In. split; [done|]. unfold on_chan. cbn [snd]. apply Z.eqb_refl.
Qed.

Lemma remove_first_head a l t ts :
  waiters a l = t :: ts → ∃ rest, remove_first a l = (Some t, rest).
Proof.
  intros Hw. destruct (existsb (on_chan a) l) eqn:He.
  - destruct (remove_first_found _ _ He) as (t' & rest & Hr).
    destruct (remove_first_some _ _ _ _ Hr) as (l1 & l2 & _ & _ & _ & H2).
    rewrite Hw in H2. injection H2 as -> _. eauto.
  - destruct (waiters_nil _ _ He) as [H _]. congruence.
Qed.

(** C7: called by the holder of the lock, cv_wait releases the lock and
    puts the caller to sleep on the cv without an interrupt being possible
    in between: the first thing it does is [splhigh], the stores that
    release the lock and the sleep come after it, in this order, and up to
    the sleep the level is only ever set to the maximum again; the caller
    is on the cv's queue when the call gives up the processor.  So a
    cv_broadcast issued next makes the caller runnable, and so does a
    cv_signal when no thread waited on the cv before.  Once woken, the
    caller returns only with the lock taken again (flag 1, itself the
    owner) and its interrupt level restored; while the lock is held by
    another thread it sleeps on the lock instead and the lock is untouched. *)
Theorem cv_wait_releases_and_blocks_atomically
    (w : world) (c lk : ptr) (vc : cv) (v : lock) :
  c ≠ NULL → lk ≠ NULL → in_interrupt (st w) = 0 →
  heap (st w) !! c = Some (OCv vc) →
  heap (st w) !! lk = Some (OLock v) → currentThread v = curthread (st w) →
  ∃ w' l,
    cv_wait c lk w = Blocked [FCvWaitSleep c lk (curspl (st w))] w' ∧
    tr w' = tr w ++ l ∧
    l = [EvSpl SPL_HIGH; EvSpl SPL_HIGH; EvFlag lk 0; EvOwner lk NULL;
         EvWake lk (waiters lk (sleepers (st w))); EvSpl SPL_HIGH;
         EvSleep (curthread (st w)) c] ∧
    masked_from_start l ∧
    before (EvSpl SPL_HIGH) (EvFlag lk 0) l ∧
    interrupts_stay_off l ∧
    before (EvFlag lk 0) (EvSleep (curthread (st w)) c) l ∧
    before (EvOwner lk NULL) (EvSleep (curthread (st w)) c) l ∧
    curspl (st w') = SPL_HIGH ∧
    lock_at lk w' = Some (0, NULL) ∧
    In (curthread (st w), c) (sleepers (st w')) ∧
    (∀ t2 lvl lk2, lk2 ≠ NULL →
       ∃ w2, cv_broadcast c lk2 (enter t2 lvl 0 w') = Done tt w2 ∧
             In (curthread (st w)) (runqueue (st w2))) ∧
    (∀ t2 lvl lk2, lk2 ≠ NULL → waiters c (sleepers (st w)) = [] →
       ∃ w2, cv_signal c lk2 (enter t2 lvl 0 w') = Done tt w2 ∧
             In (curthread (st w)) (runqueue (st w2))) ∧
    (∀ k W v',
       cv_wait_conts c lk (curspl (st w)) k →
       in_interrupt (st W) = 0 → heap (st W) !! lk = Some (OLock v') →
       (flag v' = 0 →
        ∃ W', resume k W = Done tt W' ∧
              lock_at lk W' = Some (1, curthread (st W)) ∧
              curspl (st W') = curspl (st w)) ∧
       (flag v' ≠ 0 →
        ∃ k' W', resume k W = Blocked k' W' ∧
                 cv_wait_conts c lk (curspl (st w)) k' ∧
                 lock_at lk W' = Some (flag v', currentThread v') ∧
                 sleepers (st W') = sleepers (st W) ++ [(curthread (st W), lk)])).
Proof.
  intros Hc Hl Hi Hhc Hh Ho.
  assert (Hne : c ≠ lk) by (intros ->; congruence).
  do 2 eexists. split; [by apply cv_wait_owner|].
  cbn [st tr kupd heap curspl sleepers runqueue].
  split; [reflexivity|]. split; [reflexivity|]. split.
  { eexists. split; [reflexivity|]. intros n Hin. cbn [In] in Hin.
    repeat (destruct Hin as [Hin|Hin]; [by inversion Hin|]). done. }
  split; [apply (before_intro _ _ [] [_] [_; _; _; _])|]. split.
  { intros n Hin. cbn [In] in Hin.
    repeat (destruct Hin as [Hin|Hin]; [by inversion Hin|]). done. }
  split; [apply (before_intro _ _ [EvSpl SPL_HIGH; _] [_; _; _] [])|].
  split; [apply (before_intro _ _ [EvSpl SPL_HIGH; _; _] [_; _] [])|].
  split; [done|].
  split; [unfold lock_at; cbn [st kupd heap]; by rewrite lookup_insert_eq|].
  split; [apply in_or_app; right; by left|].
  split; [|split].
  - intros t2 lvl lk2 Hl2. rewrite cv_broadcast_eq by done.
    eexists. split; [reflexivity|]. cbn [st kupd enter runqueue sleepers].
    apply in_or_app. right. apply in_waiters, in_or_app. right. by left.
  - intros t2 lvl lk2 Hl2 Hw. rewrite cv_signal_eq by done.
    cbn [st kupd enter runqueue sleepers heap curspl tr].
    destruct (remove_first_head c
                (others lk (sleepers (st w)) ++ [(curthread (st w), c)])
                (curthread (st w)) []) as (rest & ->).
    { rewrite waiters_app, waiters_others.
      destruct (Z.eqb_spec c lk); [done|]. rewrite Hw.
      unfold waiters, on_chan. cbn [List.filter map snd fst app].
      by rewrite Z.eqb_refl. }
    eexists. split; [reflexivity|]. cbn [st kupd runqueue].
    apply in_or_app. right. by left.
  - intros k W v' Hk HiW HhW. split; intros Hf.
    + by eapply resume_cv_wait_takes.
    + by eapply resume_cv_wait_sleeps.
Qed.

Lemma cv_wait_releases_and_blocks_atomically_witness :
  let w := machine (objects 0 1 1) 0 0 1 [(3, 200)] in
  ∃ w' l,
    cv_wait 300 200 w = Blocked [FCvWaitSleep 300 200 0] w' ∧
    tr w' = tr w ++ l ∧
    l = [EvSpl SPL_HIGH; EvSpl SPL_HIGH; EvFlag 200 0; EvOwner 200 NULL;
         EvWake 200 [3]; EvSpl SPL_HIGH; EvSleep 1 300] ∧
    masked_from_start l ∧
    before (EvSpl SPL_HIGH) (EvFlag 200 0) l ∧
    interrupts_stay_off l ∧
    before (EvFlag 200 0) (EvSleep 1 300) l ∧
    before (EvOwner 200 NULL) (EvSleep 1 300) l ∧
    curspl (st w') = SPL_HIGH ∧
    lock_at 200 w' = Some (0, NULL) ∧
    In (1, 300) (sleepers (st w')) ∧
    (∀ t2 lvl lk2, lk2 ≠ NULL →
       ∃ w2, cv_broadcast 300 lk2 (enter t2 lvl 0 w') = Done tt w2 ∧
             In 1 (runqueue (st w2))) ∧
    (∀ t2 lvl lk2, lk2 ≠ NULL → waiters 300 (sleepers (st w)) = [] →
       ∃ w2, cv_signal 300 lk2 (enter t2 lvl 0 w') = Done tt w2 ∧
             In 1 (runqueue (st w2))) ∧
    (∀ k W v',
       cv_wait_conts 300 200 0 k →
       in_interrupt (st W) = 0 → heap (st W) !! 200 = Some (OLock v') →
       (flag v' = 0 →
        ∃ W', resume k W = Done tt W' ∧
              lock_at 200 W' = Some (1, curthread (st W)) ∧
              curspl (st W') = 0) ∧
       (flag v' ≠ 0 →
        ∃ k' W', resume k W = Blocked k' W' ∧
                 cv_wait_conts 300 200 0 k' ∧
                 lock_at 200 W' = Some (flag v', currentThread v') ∧
                 sleepers (st W') = sleepers (st W) ++ [(curthread (st W), 200)])).
Proof.
  intros w.
  apply (cv_wait_releases_and_blocks_atomically w 300 200 {| cv_name := 301 |}
           {| lock_name := 201; flag := 1; currentThread := 1 |}).
  - vm_compute. discriminate.
  - vm_compute. discriminate.
  - reflexivity.
  - reflexivity.
  - reflexivity.
  - reflexivity.
Defined.

(** ** Runs: the count of a semaphore *)

(** All the paths of a call. *)
Ltac explore := repeat (msimp; first [rewrite lookup_insert_eq | case_inner]); msimp.

Ltac zfacts :=
  repeat match goal with
         | H : (_ =? _) = true |- _ => apply Z.eqb_eq in H
         | H : (_ =? _) = false |- _ => apply Z.eqb_neq in H
         | H : (_ <? _) = true |- _ => apply Z.ltb_lt in H
         | H : (_ <? _) = false |- _ => apply Z.ltb_ge in H
         | H : (_ <=? _) = true |- _ => apply Z.leb_le in H
         | H : (_ <=? _) = false |- _ => apply Z.leb_gt in H
         | H : negb _ = true |- _ => apply negb_true_iff in H
         | H : negb _ = false |- _ => apply negb_false_iff in H
         end.

(** The count of [sem] at the end of one path. *)
Ltac count_leaf sem :=
  zfacts; unfold sem_count_at in *; cbn [st heap] in *;
  repeat match goal with
         | |- context [(?a =? sem)] => destruct (Z.eqb_spec a sem)
         end;
  repeat match goal with
         | |- context [<[?a := _]> _ !! sem] =>
             destruct (decide (a = sem)); [subst a|]; simplify_map_eq
         end;
  simplify_map_eq; cbn [count] in *;
  try match goal with
      | H : 0 < wrap_int (?c + 1) |- _ =>
          assert (c < INT_MAX)
            by (destruct (Z.eq_dec c INT_MAX) as [E|];
                [rewrite E in H; vm_compute in H; discriminate
                | unfold INT_MAX in *; lia])
      end;
  rewrite ?wrap_int_id by (unfold INT_MIN, INT_MAX in *; lia);
  rewrite ?Z.add_0_r;
  first [ done
        | split; [done | unfold INT_MAX in *; lia]
        | split; [f_equal; lia | unfold INT_MAX in *; lia]
        | idtac ].

Lemma exec_op_count sem op w n :
  sem_count_at sem w = Some n → 0 ≤ n ≤ INT_MAX →
  match exec_op op w with
  | Done _ w' =>
      sem_count_at sem w' = Some (n + delta sem op) ∧ 0 ≤ n + delta sem op ≤ INT_MAX
  | Blocked k w' => sem_count_at sem w' = Some n ∧ frames_ok op k
  | _ => True
  end.
Proof.
  intros Hs Hn. destruct op; cbn [exec_op delta frames_ok].
  all: explore; try done.
  all: try (split; [|by eexists]).
  all: try (split; [|eexists; by left]).
  all: count_leaf sem.
Qed.

Lemma resume_count sem op k w n :
  frames_ok op k →
  sem_count_at sem w = Some n → 0 ≤ n ≤ INT_MAX →
  match resume k w with
  | Done _ w' =>
      sem_count_at sem w' = Some (n + delta sem op) ∧ 0 ≤ n + delta sem op ≤ INT_MAX
  | Blocked k' w' => sem_count_at sem w' = Some n ∧ frames_ok op k'
  | _ => True
  end.
Proof.
  intros Hk Hs Hn. destruct op; cbn [frames_ok delta] in *; try done.
  - destruct Hk as [spl ->]. cbn [resume resume_frame].
    explore; try done.
    all: try (split; [|by eexists]).
    all: count_leaf sem.
  - destruct Hk as [spl ->]. cbn [resume resume_frame].
    explore; try done.
    all: try (split; [|by eexists]).
    all: count_leaf sem.
  - destruct Hk as [spl [->|[s ->]]]; cbn [resume resume_frame].
    all: explore; try done.
    all: try (split; [|eexists; right; by eexists]).
    all: count_leaf sem.
Qed.

Lemma completed_app op d d' : completed op (d ++ d') = completed op d + completed op d'.
Proof. unfold completed. rewrite List.filter_app, length_app. lia. Qed.

Lemma completed_delta sem t op :
  completed (OpV sem) [(t, op)] - completed (OpP sem) [(t, op)] = delta sem op.
Proof.
  unfold completed, delta, is_op. cbn [List.filter snd].
  destruct op; cbn [length]; try done.
  all: rewrite (Z.eqb_sym sem); destruct (_ =? _); done.
Qed.

Lemma saved_ok_insert sv t op k :
  saved_ok sv → frames_ok op k → saved_ok (<[t := (op, k)]> sv).
Proof.
  intros Hsv Hk t' op' k'. rewrite lookup_insert. case_decide.
  - by intros [= <- <-].
  - apply Hsv.
Qed.

Lemma saved_ok_delete sv t : saved_ok sv → saved_ok (delete t sv).
Proof.
  intros Hsv t' op' k'. rewrite lookup_delete. case_decide; [done|]. apply Hsv.
Qed.

Lemma step_count sem a σ σ' d n :
  sem_count_at sem (sw σ) = Some n → 0 ≤ n ≤ INT_MAX → saved_ok (saved σ) →
  step a σ = Some (σ', d) →
  ∃ n', sem_count_at sem (sw σ') = Some n' ∧ 0 ≤ n' ≤ INT_MAX ∧ saved_ok (saved σ') ∧
        n' = n + completed (OpV sem) d - completed (OpP sem) d.
Proof.
  intros Hs Hn Hsv. destruct a as [t lvl intr op|t]; cbn [step].
  - destruct (saved σ !! t) eqn:Ht; [done|].
    pose proof (exec_op_count sem op (enter t lvl intr (sw σ)) n Hs Hn) as He.
    destruct (exec_op op (enter t lvl intr (sw σ))) as [[] w'|k w'| |]; try done.
    + intros [= <- <-]. destruct He as [H1 H2]. cbn [sw saved].
      exists (n + delta sem op). rewrite <- completed_delta with (t := t) in *.
      repeat split; try done; lia.
    + intros [= <- <-]. destruct He as [H1 H2]. cbn [sw saved].
      exists n. repeat split; try done; [lia | lia | by apply saved_ok_insert |].
      unfold completed. cbn. lia.
  - destruct (saved σ !! t) as [[op k]|] eqn:Ht; [|done].
    destruct (existsb _ _); [|done].
    pose proof (resume_count sem op k (switch_to t (sw σ)) n (Hsv _ _ _ Ht) Hs Hn) as He.
    destruct (resume k (switch_to t (sw σ))) as [[] w'|k' w'| |]; try done.
    + intros [= <- <-]. destruct He as [H1 H2]. cbn [sw saved].
      exists (n + delta sem op). rewrite <- completed_delta with (t := t) in *.
      repeat split; try done; [lia | lia | by apply saved_ok_delete | lia].
    + intros [= <- <-]. destruct He as [H1 H2]. cbn [sw saved].
      exists n. repeat split; try done; [lia | lia | by apply saved_ok_insert |].
      unfold completed. cbn. lia.
Qed.

Lemma run_count sem acts : ∀ σ σ' d n,
  sem_count_at sem (sw σ) = Some n → 0 ≤ n ≤ INT_MAX → saved_ok (saved σ) →
  run acts σ = Some (σ', d) →
  ∃ n', sem_count_at sem (sw σ') = Some n' ∧ 0 ≤ n' ≤ INT_MAX ∧
        n' = n + completed (OpV sem) d - completed (OpP sem) d.
Proof.
  induction acts as [|a acts IH]; intros σ σ' d n Hs Hn Hsv; cbn [run].
  - intros [= <- <-]. exists n. unfold completed. cbn. repeat split; try done; lia.
  - destruct (step a σ) as [[σ1 d1]|] eqn:Hst; [|done].
    destruct (run acts σ1) as [[σ2 d2]|] eqn:Hr; [|done].
    intros [= <- <-].
    destruct (step_count _ _ _ _ _ _ Hs Hn Hsv Hst) as (n1 & Hs1 & Hn1 & Hsv1 & E1).
    destruct (IH _ _ _ _ Hs1 Hn1 Hsv1 Hr) as (n2 & Hs2 & Hn2 & E2).
    exists n2. rewrite !completed_app. repeat split; try done; lia.
Qed.

Lemma run_prefix acts1 : ∀ acts2 σ σ' d,
  run (acts1 ++ acts2) σ = Some (σ', d) →
  ∃ σ1 d1 d2, run acts1 σ = Some (σ1, d1) ∧ run acts2 σ1 = Some (σ', d2) ∧ d = d1 ++ d2.
Proof.
  induction acts1 as [|a acts1 IH]; intros acts2 σ σ' d; cbn [app run].
  - intros H. by exists σ, [], d.
  - destruct (step a σ) as [[σ1 d1]|]; [|done].
    destruct (run (acts1 ++ acts2) σ1) as [[σ2 d2]|] eqn:Hr; [|done].
    intros [= <- <-]. destruct (IH _ _ _ _ Hr) as (σ3 & d3 & d4 & H1 & H2 & ->).
    rewrite H1. exists σ3, (d1 ++ d3), d4. by rewrite app_assoc.
Qed.

Lemma sem_create_count namearg c0 w sem w' :
  sem_create namearg c0 w = Done sem w' → sem ≠ NULL →
  0 ≤ c0 ∧ sem_count_at sem w' = Some c0.
Proof.
  explore; intros [= <- <-] Hn; try done.
  all: zfacts; unfold sem_count_at; cbn [st heap]; rewrite ?lookup_insert_eq; done.
Qed.

Lemma resume_P_sleeps w sem spl v :
  heap (st w) !! sem = Some (OSem v) → count v = 0 →
  ∃ w', resume [FP sem spl] w = Blocked [FP sem spl] w' ∧
        sem_count_at sem w' = Some 0 ∧
        In (curthread (st w), sem) (sleepers (st w')).
Proof.
  intros Hh Hc. rewrite resume_one. cbn [resume_frame].
  erewrite P_loop_sleeps by done. eexists. split; [done|].
  unfold sem_count_at. cbn [st kupd heap sleepers]. rewrite Hh, Hc.
  split; [done|]. apply in_or_app. right. by left.
Qed.

(** ** The semaphore invariant *)

(** C5: take a semaphore created by sem_create with initial count c0 (an
    int, and c0 >= 0 or sem_create would not have returned).  After any run
    of calls and resumptions by any threads (P and V on this or other
    semaphores, lock and cv operations), count is c0 plus the number of V
    calls that returned minus the number of P calls that returned on this
    semaphore; it is never negative, so the returned P calls never exceed
    c0 plus the returned V calls; the same holds after every prefix of the
    run.  P (and a woken P, which re-runs the test of its loop) puts the
    caller to sleep on the semaphore while count is 0, leaving count alone,
    and decrements count exactly once when count > 0. *)
Theorem semaphore_count_never_negative
    (namearg : string) (c0 : Z) (w0 w1 : world) (sem : ptr)
    (sv : gmap Z (opcall * list frame)) :
  c0 ≤ INT_MAX →
  sem_create namearg c0 w0 = Done sem w1 → sem ≠ NULL →
  saved_ok sv →
  (0 ≤ c0 ∧ sem_count_at sem w1 = Some c0) ∧
  (∀ acts σ d,
     run acts {| sw := w1; saved := sv |} = Some (σ, d) →
     ∃ c, sem_count_at sem (sw σ) = Some c ∧ 0 ≤ c ∧
          c = c0 + completed (OpV sem) d - completed (OpP sem) d ∧
          completed (OpP sem) d ≤ c0 + completed (OpV sem) d) ∧
  (∀ acts1 acts2 σ d,
     run (acts1 ++ acts2) {| sw := w1; saved := sv |} = Some (σ, d) →
     ∃ σ1 d1 c1,
       run acts1 {| sw := w1; saved := sv |} = Some (σ1, d1) ∧
       sem_count_at sem (sw σ1) = Some c1 ∧ 0 ≤ c1 ∧
       completed (OpP sem) d1 ≤ c0 + completed (OpV sem) d1) ∧
  (∀ w v,
     heap (st w) !! sem = Some (OSem v) → 0 ≤ count v ≤ INT_MAX →
     in_interrupt (st w) = 0 →
     (count v = 0 →
      ∃ w', P sem w = Blocked [FP sem (curspl (st w))] w' ∧
            sem_count_at sem w' = Some 0 ∧
            In (curthread (st w), sem) (sleepers (st w'))) ∧
     (0 < count v →
      ∃ w', P sem w = Done tt w' ∧
            sem_count_at sem w' = Some (count v - 1) ∧ 0 ≤ count v - 1 ∧
            curspl (st w') = curspl (st w))) ∧
  (∀ w v spl,
     heap (st w) !! sem = Some (OSem v) → 0 ≤ count v ≤ INT_MAX →
     (count v = 0 →
      ∃ w', resume [FP sem spl] w = Blocked [FP sem spl] w' ∧
            sem_count_at sem w' = Some 0 ∧
            In (curthread (st w), sem) (sleepers (st w'))) ∧
     (0 < count v →
      ∃ w', resume [FP sem spl] w = Done tt w' ∧
            sem_count_at sem w' = Some (count v - 1) ∧ 0 ≤ count v - 1 ∧
            curspl (st w') = spl)).
Proof.
  intros Hmax Hc Hn Hsv.
  destruct (sem_create_count _ _ _ _ _ Hc Hn) as [H0 Hs].
  assert (Hrun : ∀ acts σ d,
             run acts {| sw := w1; saved := sv |} = Some (σ, d) →
             ∃ c, sem_count_at sem (sw σ) = Some c ∧ 0 ≤ c ∧
                  c = c0 + completed (OpV sem) d - completed (OpP sem) d ∧
                  completed (OpP sem) d ≤ c0 + completed (OpV sem) d).
  { intros acts σ d Hr.
    destruct (run_count sem acts {| sw := w1; saved := sv |} σ d c0) as (c & Hc1 & Hc2 & Hc3);
      try done.
    exists c. repeat split; try done; lia. }
  split; [done|]. split; [exact Hrun|]. split; [|split].
  - intros acts1 acts2 σ d Hr.
    destruct (run_prefix _ _ _ _ _ Hr) as (σ1 & d1 & d2 & Hr1 & _ & _).
    destruct (Hrun _ _ _ Hr1) as (c1 & ? & ? & ? & ?).
    by exists σ1, d1, c1.
  - intros w v Hh Hv Hi. split; intros Hcnt.
    + rewrite P_enters by done.
      erewrite P_loop_sleeps; [| exact Hh | exact Hcnt].
      eexists. split; [reflexivity|].
      unfold sem_count_at. cbn [st kupd heap sleepers curthread]. rewrite Hh, Hcnt.
      split; [done|]. apply in_or_app. right. by left.
    + rewrite P_enters by done.
      erewrite P_loop_takes; [| exact Hh | lia].
      eexists. split; [reflexivity|].
      unfold sem_count_at. cbn [st kupd heap curspl]. rewrite lookup_insert_eq.
      repeat split; try done; lia.
  - intros w v spl Hh Hv. split; intros Hcnt.
    + by eapply resume_P_sleeps.
    + destruct (resume_P_takes w sem spl v Hh) as (w' & Hr & Hs' & Hspl); [lia|].
      exists w'. repeat split; try done; lia.
Qed.

Lemma semaphore_count_never_negative_witness :
  ∃ σ d c,
    run [ACall 1 0 0 (OpP 100); ACall 2 0 0 (OpV 100); AResume 1]
        {| sw := sem_world; saved := ∅ |} = Some (σ, d) ∧
    sem_count_at 100 (sw σ) = Some c ∧ 0 ≤ c ∧
    c = 0 + completed (OpV 100) d - completed (OpP 100) d ∧
    completed (OpP 100) d ≤ 0 + completed (OpV 100) d.
Proof.
  destruct (semaphore_count_never_negative "sem" 0 (boot [100; 101]) sem_world 100 ∅)
    as (_ & Hrun & _).
  - vm_compute. discriminate.
  - vm_compute. reflexivity.
  - vm_compute. discriminate.
  - intros t op k H. rewrite lookup_empty in H. discriminate H.
  - assert (Hr : ∃ σ d,
               run [ACall 1 0 0 (OpP 100); ACall 2 0 0 (OpV 100); AResume 1]
                   {| sw := sem_world; saved := ∅ |} = Some (σ, d))
      by (do 2 eexists; vm_compute; reflexivity).
    destruct Hr as (σ & d & Hr). destruct (Hrun _ _ _ Hr) as (c & Hc).
    exists σ, d, c. split; [exact Hr | exact Hc].
Defined.

(** Scenario A of the specification: the semaphore starts at 0, thread 1
    calls P and sleeps, thread 2 calls V, thread 1 is resumed: both calls
    have returned and count is 0 again. *)
Example scenario_A :
  match run [ACall 1 0 0 (OpP 100); ACall 2 0 0 (OpV 100); AResume 1]
            {| sw := sem_world; saved := ∅ |} with
  | Some (σ, d) =>
      sem_count_at 100 (sw σ) = Some 0 ∧ d = [(2, OpV 100); (1, OpP 100)] ∧
      sleepers (st (sw σ)) = [] ∧ saved σ = ∅
  | None => False
  end.
Proof. vm_compute. done. Qed.

(** Scenario B: thread 1 takes the lock at 200, thread 2 sleeps on it,
    thread 1 releases, thread 2 is resumed and is the owner. *)
Example scenario_B :
  match run [ACall 1 0 0 (OpAcquire 200); ACall 2 0 0 (OpAcquire 200);
             ACall 1 0 0 (OpRelease 200); AResume 2]
            {| sw := machine (objects 0 0 NULL) 0 0 1 []; saved := ∅ |} with
  | Some (σ, d) =>
      lock_at 200 (sw σ) = Some (1, 2) ∧
      d = [(1, OpAcquire 200); (1, OpRelease 200); (2, OpAcquire 200)]
  | None => False
  end.
Proof. vm_compute. done. Qed.

(** Scenario C: thread 1 holds the lock and waits on the cv; thread 2
    takes the lock, signals, releases; thread 1 is resumed and holds the
    lock again. *)
Example scenario_C :
  match run [ACall 1 0 0 (OpAcquire 200); ACall 1 0 0 (OpWait 300 200);
             ACall 2 0 0 (OpAcquire 200); ACall 2 0 0 (OpSignal 300 200);
             ACall 2 0 0 (OpRelease 200); AResume 1]
            {| sw := machine (objects 0 0 NULL) 0 0 1 []; saved := ∅ |} with
  | Some (σ, d) =>
      lock_at 200 (sw σ) = Some (1, 1) ∧ curspl (st (sw σ)) = 0 ∧
      d = [(1, OpAcquire 200); (2, OpAcquire 200); (2, OpSignal 300 200);
           (2, OpRelease 200); (1, OpWait 300 200)]
  | None => False
  end.
Proof. vm_compute. done. Qed.

(** ** Runs: the locks *)

(** The locks of the heap at the end of one path. *)
Ltac locks_leaf :=
  zfacts; unfold locks_ok in *; cbn [st heap] in *;
  let a := fresh "a" in let v := fresh "v" in let H := fresh "H" in
  intros a v H;
  repeat first
    [ rewrite lookup_insert in H; case_decide;
      [ simplify_eq; unfold lock_inv; cbn [flag currentThread];
        split; intros; first [done | congruence | lia] | ]
    | rewrite lookup_delete in H; case_decide; [done|] ];
  eauto.

Lemma exec_op_locks op w :
  curthread (st w) ≠ NULL → locks_ok w →
  match exec_op op w with
  | Done _ w' | Blocked _ w' => locks_ok w'
  | _ => True
  end.
Proof.
  intros Ht Hl. destruct op; cbn [exec_op].
  all: explore; try done.
  all: locks_leaf.
Qed.

Lemma resume_frame_locks f w :
  curthread (st w) ≠ NULL → locks_ok w →
  match resume_frame f w with
  | Done _ w' | Blocked _ w' => locks_ok w' ∧ curthread (st w') = curthread (st w)
  | _ => True
  end.
Proof.
  intros Ht Hl. destruct f; cbn [resume_frame].
  all: explore; try done.
  all: split; [locks_leaf | done].
Qed.

Lemma resume_locks k : ∀ w,
  curthread (st w) ≠ NULL → locks_ok w →
  match resume k w with
  | Done _ w' | Blocked _ w' => locks_ok w'
  | _ => True
  end.
Proof.
  induction k as [|f k IH]; intros w Ht Hl; cbn [resume]; [done|].
  pose proof (resume_frame_locks f w Ht Hl) as Hf.
  destruct (resume_frame f w) as [[] w'|k' w'| |]; try done.
  - destruct Hf as [Hl' Ht']. apply IH; [congruence | done].
  - by destruct Hf.
Qed.

Lemma step_locks a σ σ' d :
  thread_of a ≠ NULL → locks_ok (sw σ) → step a σ = Some (σ', d) → locks_ok (sw σ').
Proof.
  intros Ht Hl. destruct a as [t lvl intr op|t]; cbn [step thread_of] in *.
  - destruct (saved σ !! t); [done|].
    pose proof (exec_op_locks op (enter t lvl intr (sw σ)) Ht Hl) as He.
    destruct (exec_op op (enter t lvl intr (sw σ))) as [[] w'|k w'| |]; try done.
    all: by intros [= <- <-].
  - destruct (saved σ !! t) as [[op k]|]; [|done].
    destruct (existsb _ _); [|done].
    pose proof (resume_locks k (switch_to t (sw σ)) Ht) as He.
    destruct (resume k (switch_to t (sw σ))) as [[] w'|k' w'| |]; try done.
    all: intros [= <- <-]; apply He; intros a v; apply Hl.
Qed.

Lemma run_locks acts : ∀ σ σ' d,
  Forall (λ a, thread_of a ≠ NULL) acts → locks_ok (sw σ) →
  run acts σ = Some (σ', d) → locks_ok (sw σ').
Proof.
  induction acts as [|a acts IH]; intros σ σ' d Hf Hl; cbn [run].
  - by intros [= <- <-].
  - inversion Hf as [|? ? Ha Hf']; subst.
    destruct (step a σ) as [[σ1 d1]|] eqn:Hst; [|done].
    destruct (run acts σ1) as [[σ2 d2]|] eqn:Hr; [|done].
    intros [= <- <-]. eapply IH; [done | | done].
    by eapply step_locks.
Qed.

Lemma lock_create_locks name w lk w' :
  lock_create name w = Done lk w' → lk ≠ NULL →
  (∃ nm, heap (st w') !! lk = Some (OLock {| lock_name := nm; flag := 0;
                                             currentThread := NULL |})) ∧
  (locks_ok w → locks_ok w').
Proof.
  explore; intros [= <- <-] Hn; try done.
  all: split; [cbn [st heap]; rewrite ?lookup_insert_eq; by eexists | intros Hl; locks_leaf].
Qed.

Lemma lock_destroy_locks lk w :
  locks_ok w →
  match lock_destroy lk w with
  | Done _ w' => locks_ok w'
  | _ => True
  end.
Proof. intros Hl. explore; try done. all: locks_leaf. Qed.

Lemma lock_create_ok name w a b rest :
  kalloc (st w) = a :: b :: rest →
  a ≠ NULL → b ≠ NULL → a ≠ b →
  heap (st w) !! a = None → heap (st w) !! b = None →
  ∃ w', lock_create name w = Done a w'.
Proof.
  intros Hk Ha Hb Hab Hha Hhb. msimp. rewrite Hk. msimp.
  rewrite (bool_decide_eq_false_2 _ Ha), Hha. cbn [orb].
  rewrite bool_decide_eq_false_2 by (intros [? ?]; done). msimp.
  not_null.
  rewrite (bool_decide_eq_false_2 _ Hb). cbn [orb].
  rewrite lookup_insert_ne, Hhb by done.
  rewrite bool_decide_eq_false_2 by (intros [? ?]; done).
  repeat (msimp; first [rewrite lookup_insert_eq | rewrite lookup_insert_ne by done
                       | progress not_null]).
  msimp. eauto.
Qed.

Lemma objects_locks_ok c f o spl intr t sl :
  (f ≠ 0 ↔ o ≠ NULL) → locks_ok (machine (objects c f o) spl intr t sl).
Proof.
  intros Hfo a v. unfold machine, objects. cbn [st heap].
  repeat (rewrite lookup_insert; case_decide; [intros [= <-]|]); [done|].
  by rewrite lookup_empty.
Qed.

(** The body the three constructors share, when the allocator has two
    blocks that are not in use: the first becomes the object, the second
    the copy of the name. *)
Lemma create_succeeds (o : ptr → obj) name w (m : M ptr) a b rest :
  m = (let* p := kmalloc in
       if p =? NULL then ret NULL
       else let* nm := kstrdup name in
            if nm =? NULL then kfree p >> ret NULL
            else init p (o nm) >> ret p) →
  kalloc (st w) = a :: b :: rest →
  a ≠ NULL → b ≠ NULL → a ≠ b →
  heap (st w) !! a = None → heap (st w) !! b = None →
  ∃ w', m w = Done a w' ∧
        heap (st w') = <[a := o b]> (<[b := OStr name]> (heap (st w))) ∧
        kalloc (st w') = rest ∧ only_heap_differs w w'.
Proof.
  intros -> Hk Ha Hb Hab Hha Hhb. msimp. rewrite Hk. msimp.
  rewrite (bool_decide_eq_false_2 _ Ha), Hha. cbn [orb].
  rewrite bool_decide_eq_false_2 by (intros [? ?]; done). msimp.
  not_null.
  rewrite (bool_decide_eq_false_2 _ Hb). cbn [orb].
  rewrite lookup_insert_ne, Hhb by done.
  rewrite bool_decide_eq_false_2 by (intros [? ?]; done).
  repeat (msimp; first [rewrite lookup_insert_eq | rewrite lookup_insert_ne by done
                       | progress not_null]).
  msimp. eexists. split; [reflexivity|]. cbn [st heap kalloc].
  split; [|split; [done|]].
  - rewrite insert_insert_eq. rewrite (insert_insert_ne _ b a) by done.
    by rewrite insert_insert_eq.
  - unfold only_heap_differs. cbn [st tr curspl in_interrupt curthread sleepers runqueue].
    by rewrite !app_nil_r.
Qed.

(** ** The lock invariant *)

(** C10: a lock is held (flag nonzero) exactly when an owner is recorded
    (currentThread non-NULL), for every lock of the kernel, and every
    operation keeps it so when the calling thread is not NULL.  lock_create
    returns a lock with flag 0 and owner NULL (it does return one whenever
    the allocator has two blocks that are not in use); lock_acquire on a free lock
    sets flag to 1 and the owner to the caller, and on a held lock puts the
    caller to sleep and leaves the lock alone; lock_release by the owner
    sets flag to 0 and the owner to NULL, by another thread it changes
    nothing of the lock; lock_destroy removes the lock; and after any run of
    calls and resumptions the invariant still holds.  lock_do_i_hold
    returns 1 exactly when currentThread equals curthread, changes nothing,
    and returns the same whatever the flag is. *)
Theorem lock_flag_iff_owner (w : world) (lk : ptr) (v : lock) :
  lk ≠ NULL → in_interrupt (st w) = 0 → curthread (st w) ≠ NULL →
  heap (st w) !! lk = Some (OLock v) → locks_ok w →
  (∀ name w0 lk0 w1,
     lock_create name w0 = Done lk0 w1 → lk0 ≠ NULL →
     (∃ nm, heap (st w1) !! lk0 = Some (OLock {| lock_name := nm; flag := 0;
                                                 currentThread := NULL |})) ∧
     (locks_ok w0 → locks_ok w1)) ∧
  (∀ name w0 a b rest,
     kalloc (st w0) = a :: b :: rest → a ≠ NULL → b ≠ NULL → a ≠ b →
     heap (st w0) !! a = None → heap (st w0) !! b = None →
     ∃ w1, lock_create name w0 = Done a w1 ∧
           heap (st w1) !! a = Some (OLock {| lock_name := b; flag := 0;
                                              currentThread := NULL |}) ∧
           lock_at a w1 = Some (0, NULL) ∧
           (locks_ok w0 → locks_ok w1)) ∧
  (flag v = 0 →
   ∃ w', lock_acquire lk w = Done tt w' ∧
         lock_at lk w' = Some (1, curthread (st w)) ∧ locks_ok w') ∧
  (flag v ≠ 0 →
   ∃ w', lock_acquire lk w = Blocked [FLockAcquire lk (curspl (st w))] w' ∧
         lock_at lk w' = Some (flag v, currentThread v) ∧ locks_ok w') ∧
  (currentThread v = curthread (st w) →
   ∃ w', lock_release lk w = Done tt w' ∧
         lock_at lk w' = Some (0, NULL) ∧ locks_ok w') ∧
  (currentThread v ≠ curthread (st w) →
   ∃ w', lock_release lk w = Done tt w' ∧
         lock_at lk w' = Some (flag v, currentThread v) ∧ locks_ok w') ∧
  (∃ w', lock_destroy lk w = Done tt w' ∧ heap (st w') !! lk = None ∧ locks_ok w') ∧
  lock_do_i_hold lk w = Done (if currentThread v =? curthread (st w) then 1 else 0) w ∧
  (∀ f,
     let w2 := upd (set_heap <[lk := OLock {| lock_name := lock_name v; flag := f;
                                              currentThread := currentThread v |}]>) [] w in
     lock_do_i_hold lk w2 = Done (if currentThread v =? curthread (st w) then 1 else 0) w2) ∧
  (∀ acts sv σ' d,
     Forall (λ a, thread_of a ≠ NULL) acts →
     run acts {| sw := w; saved := sv |} = Some (σ', d) → locks_ok (sw σ')).
Proof.
  intros Hn Hi Ht Hh Hl.
  split; [intros name w0 lk0 w1; apply lock_create_locks|].
  split.
  { intros name w0 a b rest Hk Ha Hb Hab Hha Hhb.
    destruct (create_succeeds
                (fun nm => OLock {| lock_name := nm; flag := 0; currentThread := NULL |})
                name w0 (lock_create name) a b rest eq_refl Hk Ha Hb Hab Hha Hhb)
      as (w1 & Hc & Hheap & _).
    exists w1. split; [exact Hc|].
    assert (Hat : heap (st w1) !! a = Some (OLock {| lock_name := b; flag := 0;
                                                     currentThread := NULL |}))
      by (rewrite Hheap; apply lookup_insert_eq).
    split; [exact Hat|]. split; [unfold lock_at; by rewrite Hat|].
    by apply (lock_create_locks name w0 a w1). }
  split; [|split; [|split; [|split; [|split; [|split; [|split]]]]]].
  - intros Hf.
    assert (∃ w', lock_acquire lk w = Done tt w' ∧
                  lock_at lk w' = Some (1, curthread (st w))) as (w' & E & Hat).
    { rewrite lock_acquire_enters by done.
      erewrite lock_acquire_loop_takes; [| exact Hh | exact Hf].
      eexists. split; [reflexivity|].
      unfold lock_at. cbn [st kupd heap curthread]. by rewrite lookup_insert_eq. }
    exists w'. split; [done|]. split; [done|].
    pose proof (exec_op_locks (OpAcquire lk) w Ht Hl) as He.
    cbn [exec_op] in He. by rewrite E in He.
  - intros Hf.
    assert (∃ w', lock_acquire lk w = Blocked [FLockAcquire lk (curspl (st w))] w' ∧
                  lock_at lk w' = Some (flag v, currentThread v)) as (w' & E & Hat).
    { rewrite lock_acquire_enters by done.
      erewrite lock_acquire_loop_sleeps; [| exact Hh | exact Hf].
      eexists. split; [reflexivity|].
      unfold lock_at. cbn [st kupd heap curspl]. by rewrite Hh. }
    exists w'. split; [done|]. split; [done|].
    pose proof (exec_op_locks (OpAcquire lk) w Ht Hl) as He.
    cbn [exec_op] in He. by rewrite E in He.
  - intros Ho.
    pose proof (lock_release_owner w lk v Hn Hi Hh Ho) as E.
    eexists. split; [exact E|]. split.
    + unfold lock_at. cbn [st kupd heap]. by rewrite lookup_insert_eq.
    + pose proof (exec_op_locks (OpRelease lk) w Ht Hl) as He.
      cbn [exec_op] in He. by rewrite E in He.
  - intros Ho.
    pose proof (lock_release_other w lk v Hn Hi Hh Ho) as E.
    eexists. split; [exact E|]. split.
    + unfold lock_at. cbn [st kupd heap]. by rewrite Hh.
    + pose proof (exec_op_locks (OpRelease lk) w Ht Hl) as He.
      cbn [exec_op] in He. by rewrite E in He.
  - pose proof (lock_destroy_ok w lk v Hn Hh) as E.
    eexists. split; [exact E|]. split.
    + cbn [st kupd heap]. apply lookup_delete_eq.
    + pose proof (lock_destroy_locks lk w Hl) as He. by rewrite E in He.
  - by apply lock_do_i_hold_eq.
  - intros f w2.
    rewrite (lock_do_i_hold_eq w2 lk {| lock_name := lock_name v; flag := f;
                                        currentThread := currentThread v |}); [done | done |].
    unfold w2. cbn [upd st set_heap heap]. by rewrite lookup_insert_eq.
  - intros acts sv σ' d Hf Hr. by eapply run_locks in Hr.
Qed.

(** lock_create on a machine whose allocator has the blocks 400 and 401;
    the free lock at 200 taken by thread 1; the lock at 200 held by thread
    1: acquired by thread 2, released by thread 1, released by thread 2. *)
Lemma lock_flag_iff_owner_witness :
  (∃ w1, lock_create "l" (machine_alloc [400; 401]) = Done 400 w1 ∧
         heap (st w1) !! 400 = Some (OLock {| lock_name := 401; flag := 0;
                                              currentThread := NULL |}) ∧
         lock_at 400 w1 = Some (0, NULL)) ∧
  (let w := machine (objects 0 0 NULL) 0 0 1 [] in
   (∃ w', lock_acquire 200 w = Done tt w' ∧ lock_at 200 w' = Some (1, 1) ∧ locks_ok w') ∧
   (∃ w', lock_destroy 200 w = Done tt w' ∧ heap (st w') !! 200 = None ∧ locks_ok w') ∧
   lock_do_i_hold 200 w = Done 0 w ∧
   (∀ acts sv σ' d,
      Forall (λ a, thread_of a ≠ NULL) acts →
      run acts {| sw := w; saved := sv |} = Some (σ', d) → locks_ok (sw σ'))) ∧
  (let w := machine (objects 0 1 1) 0 0 1 [] in
   (∃ w', lock_release 200 w = Done tt w' ∧ lock_at 200 w' = Some (0, NULL) ∧
          locks_ok w') ∧
   lock_do_i_hold 200 w = Done 1 w) ∧
  (let w := machine (objects 0 1 1) 0 0 2 [] in
   (∃ w', lock_release 200 w = Done tt w' ∧ lock_at 200 w' = Some (1, 1) ∧ locks_ok w') ∧
   (∃ w', lock_acquire 200 w = Blocked [FLockAcquire 200 0] w' ∧
          lock_at 200 w' = Some (1, 1) ∧ locks_ok w') ∧
   lock_do_i_hold 200 w = Done 0 w).
Proof.
  destruct (lock_flag_iff_owner (machine (objects 0 0 NULL) 0 0 1 []) 200
              {| lock_name := 201; flag := 0; currentThread := NULL |})
    as (_ & Hcreate & Hacq & _ & _ & _ & Hdes & Hhold & _ & Hrun).
  { vm_compute. discriminate. }
  { reflexivity. }
  { vm_compute. discriminate. }
  { reflexivity. }
  { by apply objects_locks_ok. }
  destruct (lock_flag_iff_owner (machine (objects 0 1 1) 0 0 1 []) 200
              {| lock_name := 201; flag := 1; currentThread := 1 |})
    as (_ & _ & _ & _ & Hrel & _ & _ & Hhold1 & _).
  { vm_compute. discriminate. }
  { reflexivity. }
  { vm_compute. discriminate. }
  { reflexivity. }
  { apply objects_locks_ok. split; intros _; vm_compute; discriminate. }
  destruct (lock_flag_iff_owner (machine (objects 0 1 1) 0 0 2 []) 200
              {| lock_name := 201; flag := 1; currentThread := 1 |})
    as (_ & _ & _ & Hblk & _ & Hrel2 & _ & Hhold2 & _).
  { vm_compute. discriminate. }
  { reflexivity. }
  { vm_compute. discriminate. }
  { reflexivity. }
  { apply objects_locks_ok. split; intros _; vm_compute; discriminate. }
  split.
  { destruct (Hcreate "l" (machine_alloc [400; 401]) 400 401 [])
      as (w1 & Hc & Hh & Hat & _).
    - reflexivity.
    - vm_compute. discriminate.
    - vm_compute. discriminate.
    - vm_compute. discriminate.
    - reflexivity.
    - reflexivity.
    - exists w1. split; [exact Hc|]. split; [exact Hh | exact Hat]. }
  split.
  { split; [exact (Hacq eq_refl)|]. split; [exact Hdes|]. split; [exact Hhold | exact Hrun]. }
  split.
  { split; [exact (Hrel eq_refl) | exact Hhold1]. }
  split; [|split; [|exact Hhold2]].
  - apply Hrel2. vm_compute. discriminate.
  - apply Hblk. vm_compute. discriminate.
Defined.

(** * Further properties of synch.c *)

(** ** The constructors *)

Lemma only_heap_differs_refl w : only_heap_differs w w.
Proof. by repeat split. Qed.

Lemma kmalloc_cases w :
  (∃ w', kmalloc w = Done NULL w' ∧ heap (st w') = heap (st w) ∧ only_heap_differs w w') ∨
  (∃ a w', kmalloc w = Done a w' ∧ a ≠ NULL ∧ heap (st w) !! a = None ∧
           heap (st w') = <[a := ORaw]> (heap (st w)) ∧ only_heap_differs w w').
Proof.
  unfold kmalloc, only_heap_differs. destruct (kalloc (st w)) as [|a rest].
  - left. by eexists.
  - destruct (bool_decide (a = NULL)) eqn:Ea; cbn [orb].
    + left. eexists. split; [done|]. cbn. by rewrite app_nil_r.
    + destruct (bool_decide (is_Some (heap (st w) !! a))) eqn:Eb.
      * left. eexists. split; [done|]. cbn. by rewrite app_nil_r.
      * right. exists a. eexists. split; [done|].
        apply bool_decide_eq_false in Ea, Eb.
        split; [done|]. split; [by apply eq_None_not_Some|].
        cbn. by rewrite app_nil_r.
Qed.

Lemma kstrdup_cases s w :
  (∃ w', kstrdup s w = Done NULL w' ∧ heap (st w') = heap (st w) ∧ only_heap_differs w w') ∨
  (∃ a w', kstrdup s w = Done a w' ∧ a ≠ NULL ∧ heap (st w) !! a = None ∧
           heap (st w') = <[a := OStr s]> (heap (st w)) ∧ only_heap_differs w w').
Proof.
  unfold kstrdup, bind.
  destruct (kmalloc_cases w) as [(w1 & -> & Hh & Hs)|(a & w1 & -> & Ha & Hn & Hh & Hs)].
  - left. cbn. eauto.
  - right. destruct (Z.eqb_spec a NULL); [done|].
    unfold init, ret. rewrite Hh, lookup_insert_eq.
    exists a. eexists. split; [reflexivity|]. split; [done|]. split; [done|].
    cbn [upd st set_heap heap tr]. rewrite Hh, insert_insert_eq. split; [done|].
    unfold only_heap_differs in *. cbn. rewrite app_nil_r. done.
Qed.

(** The body the three constructors share: kmalloc, kstrdup (the block is
    freed again when it fails), then the stores that fill in the block. *)
Lemma create_cases (o : ptr → obj) name w (m : M ptr) :
  m = (let* p := kmalloc in
       if p =? NULL then ret NULL
       else let* nm := kstrdup name in
            if nm =? NULL then kfree p >> ret NULL
            else init p (o nm) >> ret p) →
  ∃ p w', m w = Done p w' ∧ only_heap_differs w w' ∧
    (p = NULL → heap (st w') = heap (st w)) ∧
    (p ≠ NULL → heap (st w) !! p = None ∧
       ∃ nm, nm ≠ NULL ∧ nm ≠ p ∧ heap (st w) !! nm = None ∧
             heap (st w') = <[p := o nm]> (<[nm := OStr name]> (heap (st w)))).
Proof.
  intros ->. unfold bind at 1.
  destruct (kmalloc_cases w) as [(w1 & -> & Hh & Hs)|(a & w1 & -> & Ha & Hn & Hh & Hs)].
  - cbn. exists NULL, w1. done.
  - destruct (Z.eqb_spec a NULL); [done|]. unfold bind at 1.
    destruct (kstrdup_cases name w1)
      as [(w2 & -> & Hh2 & Hs2)|(b & w2 & -> & Hb & Hn2 & Hh2 & Hs2)].
    + cbn [Z.eqb NULL]. unfold kfree, bind, modify, ret.
      eexists NULL, _. split; [reflexivity|]. cbn [upd st set_heap heap tr].
      split; [|split; [|done]].
      * unfold only_heap_differs in *. cbn. rewrite app_nil_r. intuition congruence.
      * intros _. rewrite Hh2, Hh. by apply delete_insert_id.
    + destruct (Z.eqb_spec b NULL); [done|].
      assert (b ≠ a) by (intros ->; rewrite Hh, lookup_insert_eq in Hn2; done).
      unfold bind, init, ret. rewrite Hh2, lookup_insert_ne, Hh, lookup_insert_eq by done.
      eexists a, _. split; [reflexivity|]. cbn [upd st set_heap heap tr].
      split; [|split; [done|]].
      * unfold only_heap_differs in *. cbn. rewrite app_nil_r. intuition congruence.
      * intros _. split; [done|]. exists b. split; [done|]. split; [done|]. split.
        -- rewrite Hh, lookup_insert_ne in Hn2; done.
        -- rewrite Hh2, Hh. rewrite (insert_insert_ne _ b a) by done.
           by rewrite insert_insert_eq.
Qed.

Lemma block_free_true a h : block_free a h = true ↔ a ≠ NULL ∧ h !! a = None.
Proof.
  unfold block_free. rewrite negb_true_iff, orb_false_iff, !bool_decide_eq_false.
  by rewrite eq_None_not_Some.
Qed.

Lemma kmalloc_empty w : kalloc (st w) = [] → kmalloc w = Done NULL w.
Proof. intros Hk. unfold kmalloc. by rewrite Hk. Qed.

Lemma kmalloc_not_free w a rest :
  kalloc (st w) = a :: rest → block_free a (heap (st w)) = false →
  kmalloc w = Done NULL (upd (set_kalloc rest) [] w).
Proof.
  intros Hk Hf. unfold kmalloc, block_free in *. rewrite Hk.
  apply negb_false_iff in Hf. by rewrite Hf.
Qed.

Lemma kmalloc_free w a rest :
  kalloc (st w) = a :: rest → block_free a (heap (st w)) = true →
  kmalloc w = Done a (upd (fun s => set_heap <[a := ORaw]> (set_kalloc rest s)) [] w).
Proof.
  intros Hk Hf. unfold kmalloc, block_free in *. rewrite Hk.
  apply negb_true_iff in Hf. by rewrite Hf.
Qed.

Lemma kmalloc_block w a w1 :
  kmalloc w = Done a w1 → a ≠ NULL →
  heap (st w) !! a = None ∧ heap (st w1) = <[a := ORaw]> (heap (st w)) ∧
  only_heap_differs w w1.
Proof.
  intros Hk Ha.
  destruct (kmalloc_cases w) as [(w' & E & _)|(a' & w' & E & _ & Hn & Hh & Hd)];
    rewrite Hk in E; injection E as -> ->; done.
Qed.

Lemma kstrdup_block s w b w2 :
  kstrdup s w = Done b w2 →
  only_heap_differs w w2 ∧
  (b = NULL → heap (st w2) = heap (st w)) ∧
  (b ≠ NULL → heap (st w) !! b = None ∧ heap (st w2) = <[b := OStr s]> (heap (st w))).
Proof.
  intros Hs.
  destruct (kstrdup_cases s w) as [(w' & E & Hh & Hd)|(b' & w' & E & Hb & Hn & Hh & Hd)];
    rewrite Hs in E; injection E as -> ->; done.
Qed.

(** The shared body follows the allocator: NULL when kmalloc answers NULL;
    NULL, with the block given back, when kstrdup answers NULL; the block
    otherwise. *)
Lemma create_follows_allocator (o : ptr → obj) name w (m : M ptr) :
  m = (let* p := kmalloc in
       if p =? NULL then ret NULL
       else let* nm := kstrdup name in
            if nm =? NULL then kfree p >> ret NULL
            else init p (o nm) >> ret p) →
  (∀ w1, kmalloc w = Done NULL w1 → m w = Done NULL w1) ∧
  (∀ a w1 w2,
     kmalloc w = Done a w1 → a ≠ NULL → kstrdup name w1 = Done NULL w2 →
     ∃ w', m w = Done NULL w' ∧ heap (st w') = heap (st w) ∧ only_heap_differs w w') ∧
  (∀ a w1 b w2,
     kmalloc w = Done a w1 → a ≠ NULL → kstrdup name w1 = Done b w2 → b ≠ NULL →
     ∃ w', m w = Done a w' ∧
           heap (st w') = <[a := o b]> (<[b := OStr name]> (heap (st w))) ∧
           only_heap_differs w w').
Proof.
  intros ->. split; [|split].
  - intros w1 Hk. unfold bind. by rewrite Hk.
  - intros a w1 w2 Hk Ha Hs.
    destruct (kmalloc_block _ _ _ Hk Ha) as (Hn & Hh & Hd).
    destruct (kstrdup_block _ _ _ _ Hs) as (Hd2 & Hh2 & _).
    unfold bind at 1. rewrite Hk. destruct (Z.eqb_spec a NULL); [done|].
    unfold bind at 1. rewrite Hs. cbn [Z.eqb NULL]. unfold kfree, bind, modify, ret.
    eexists. split; [reflexivity|]. cbn [upd st set_heap heap tr]. split.
    + rewrite Hh2, Hh by done. by apply delete_insert_id.
    + unfold only_heap_differs in *. cbn. rewrite app_nil_r. intuition congruence.
  - intros a w1 b w2 Hk Ha Hs Hb.
    destruct (kmalloc_block _ _ _ Hk Ha) as (Hn & Hh & Hd).
    destruct (kstrdup_block _ _ _ _ Hs) as (Hd2 & _ & Hok).
    destruct (Hok Hb) as (Hnb & Hh2).
    assert (b ≠ a) by (intros ->; rewrite Hh, lookup_insert_eq in Hnb; done).
    unfold bind at 1. rewrite Hk. destruct (Z.eqb_spec a NULL); [done|].
    unfold bind at 1. rewrite Hs. destruct (Z.eqb_spec b NULL); [done|].
    unfold bind, init, ret. rewrite Hh2, lookup_insert_ne, Hh, lookup_insert_eq by done.
    eexists. split; [reflexivity|]. cbn [upd st set_heap heap tr]. split.
    + rewrite Hh2, Hh. rewrite (insert_insert_ne _ b a) by done. by rewrite insert_insert_eq.
    + unfold only_heap_differs in *. cbn. rewrite app_nil_r. intuition congruence.
Qed.

(** The shared body returns the object exactly when the allocator has two
    blocks to give, and NULL, with the heap as before, otherwise. *)
Lemma create_by_blocks (o : ptr → obj) name w (m : M ptr) :
  m = (let* p := kmalloc in
       if p =? NULL then ret NULL
       else let* nm := kstrdup name in
            if nm =? NULL then kfree p >> ret NULL
            else init p (o nm) >> ret p) →
  match two_blocks (kalloc (st w)) (heap (st w)) with
  | Some (a, b) =>
      ∃ w', m w = Done a w' ∧
            heap (st w') = <[a := o b]> (<[b := OStr name]> (heap (st w))) ∧
            only_heap_differs w w'
  | None =>
      ∃ w', m w = Done NULL w' ∧ heap (st w') = heap (st w) ∧ only_heap_differs w w'
  end.
Proof.
  intros Hm. destruct (create_follows_allocator o name w m Hm) as (H1 & H2 & H3).
  unfold two_blocks. destruct (kalloc (st w)) as [|a l] eqn:Hk.
  { eexists. split; [apply H1; by apply kmalloc_empty|]. split; [done|].
    apply only_heap_differs_refl. }
  destruct (block_free a (heap (st w))) eqn:Hfa.
  2:{ assert (Hnull : ∃ w', m w = Done NULL w' ∧ heap (st w') = heap (st w) ∧
                            only_heap_differs w w').
      { eexists. split; [apply H1; by eapply kmalloc_not_free|].
        unfold only_heap_differs. cbn. by rewrite app_nil_r. }
      destruct l; done. }
  pose proof (kmalloc_free w a l Hk Hfa) as Hka.
  apply block_free_true in Hfa as [Ha Hna].
  destruct l as [|b rest].
  { eapply H2; [exact Hka | done |].
    unfold kstrdup, bind. rewrite kmalloc_empty by done. reflexivity. }
  cbn [andb]. destruct (block_free b (<[a := ORaw]> (heap (st w)))) eqn:Hfb.
  - apply block_free_true in Hfb as [Hb Hnb].
    assert (b ≠ a) by (intros ->; rewrite lookup_insert_eq in Hnb; done).
    rewrite lookup_insert_ne in Hnb by done.
    destruct (create_succeeds o name w m a b rest Hm Hk) as (w' & Hd & Hh & _ & Hs);
      try done.
    exists w'. done.
  - eapply H2; [exact Hka | done |].
    unfold kstrdup, bind. erewrite kmalloc_not_free; [reflexivity | reflexivity | exact Hfb].
Qed.

(** X1: sem_create with an initial count in the range of a non-negative
    int always returns, and what it returns is decided by the allocator.
    When the allocator has two blocks that are not in use, it returns the
    first, which now holds the given count and a pointer to the second,
    which holds a copy of the name; no other object is changed.  Otherwise
    (kmalloc or kstrdup answers NULL) it returns NULL and the heap is
    exactly as before: the semaphore block is freed again when kstrdup
    fails.  Interrupt level, queues and log are untouched. *)
Theorem sem_create_outcome (namearg : string) (c : Z) (w : world) :
  0 ≤ c ≤ INT_MAX →
  (∃ p w', sem_create namearg c w = Done p w' ∧ only_heap_differs w w' ∧
     (p = NULL → heap (st w') = heap (st w)) ∧
     (p ≠ NULL → heap (st w) !! p = None ∧
        ∃ nm, nm ≠ NULL ∧ nm ≠ p ∧ heap (st w) !! nm = None ∧
              heap (st w') = <[p := OSem {| sem_name := nm; count := c |}]>
                               (<[nm := OStr namearg]> (heap (st w))))) ∧
  match two_blocks (kalloc (st w)) (heap (st w)) with
  | Some (a, b) =>
      ∃ w', sem_create namearg c w = Done a w' ∧
            heap (st w') = <[a := OSem {| sem_name := b; count := c |}]>
                             (<[b := OStr namearg]> (heap (st w))) ∧
            only_heap_differs w w'
  | None =>
      ∃ w', sem_create namearg c w = Done NULL w' ∧ heap (st w') = heap (st w) ∧
            only_heap_differs w w'
  end ∧
  (∀ w1, kmalloc w = Done NULL w1 → sem_create namearg c w = Done NULL w1) ∧
  (∀ a w1 w2,
     kmalloc w = Done a w1 → a ≠ NULL → kstrdup namearg w1 = Done NULL w2 →
     ∃ w', sem_create namearg c w = Done NULL w' ∧ heap (st w') = heap (st w) ∧
           only_heap_differs w w') ∧
  (∀ a w1 b w2,
     kmalloc w = Done a w1 → a ≠ NULL → kstrdup namearg w1 = Done b w2 → b ≠ NULL →
     ∃ w', sem_create namearg c w = Done a w' ∧
           heap (st w') = <[a := OSem {| sem_name := b; count := c |}]>
                            (<[b := OStr namearg]> (heap (st w))) ∧
           only_heap_differs w w').
Proof.
  intros Hc.
  assert (Hbody : sem_create namearg c w =
                  (let* p := kmalloc in
                   if p =? NULL then ret NULL
                   else let* nm := kstrdup namearg in
                        if nm =? NULL then kfree p >> ret NULL
                        else init p (OSem {| sem_name := nm; count := c |}) >> ret p) w).
  { unfold sem_create, bind at 1, assert. destruct (Z.leb_spec 0 c); [done|lia]. }
  rewrite !Hbody.
  split; [by apply (create_cases (fun nm => OSem {| sem_name := nm; count := c |}))|].
  split; [by apply (create_by_blocks (fun nm => OSem {| sem_name := nm; count := c |}))|].
  by apply (create_follows_allocator (fun nm => OSem {| sem_name := nm; count := c |})).
Qed.

(** Both blocks available; the allocator exhausted; one block only, so
    that kstrdup fails; the first address in use. *)
Lemma sem_create_outcome_witness :
  (∃ w', sem_create "mutex" 1 (machine_alloc [400; 401]) = Done 400 w' ∧
         heap (st w') = <[400 := OSem {| sem_name := 401; count := 1 |}]>
                          (<[401 := OStr "mutex"]> (objects 0 0 NULL)) ∧
         only_heap_differs (machine_alloc [400; 401]) w') ∧
  (∃ w', sem_create "mutex" 1 (machine_alloc []) = Done NULL w' ∧
         heap (st w') = objects 0 0 NULL ∧ only_heap_differs (machine_alloc []) w') ∧
  (∃ w', sem_create "mutex" 1 (machine_alloc [400]) = Done NULL w' ∧
         heap (st w') = objects 0 0 NULL ∧ only_heap_differs (machine_alloc [400]) w') ∧
  (∃ w', sem_create "mutex" 1 (machine_alloc [200; 400; 401]) = Done NULL w' ∧
         heap (st w') = objects 0 0 NULL ∧
         only_heap_differs (machine_alloc [200; 400; 401]) w').
Proof.
  split; [|split; [|split]].
  - destruct (sem_create_outcome "mutex" 1 (machine_alloc [400; 401])) as (_ & H & _).
    + vm_compute. split; discriminate.
    + exact H.
  - destruct (sem_create_outcome "mutex" 1 (machine_alloc [])) as (_ & H & _).
    + vm_compute. split; discriminate.
    + exact H.
  - destruct (sem_create_outcome "mutex" 1 (machine_alloc [400])) as (_ & H & _).
    + vm_compute. split; discriminate.
    + exact H.
  - destruct (sem_create_outcome "mutex" 1 (machine_alloc [200; 400; 401])) as (_ & H & _).
    + vm_compute. split; discriminate.
    + exact H.
Defined.

(** X2: lock_create always returns, and what it returns is decided by the
    allocator.  When the allocator has two blocks that are not in use, it
    returns the first, which now holds flag 0, owner NULL and a pointer to
    the second, which holds a copy of the name; no other object is changed.
    Otherwise (kmalloc or kstrdup answers NULL) it returns NULL and the
    heap is exactly as before. *)
Theorem lock_create_outcome (name : string) (w : world) :
  (∃ p w', lock_create name w = Done p w' ∧ only_heap_differs w w' ∧
     (p = NULL → heap (st w') = heap (st w)) ∧
     (p ≠ NULL → heap (st w) !! p = None ∧
        ∃ nm, nm ≠ NULL ∧ nm ≠ p ∧ heap (st w) !! nm = None ∧
              heap (st w') = <[p := OLock {| lock_name := nm; flag := 0;
                                             currentThread := NULL |}]>
                               (<[nm := OStr name]> (heap (st w))))) ∧
  match two_blocks (kalloc (st w)) (heap (st w)) with
  | Some (a, b) =>
      ∃ w', lock_create name w = Done a w' ∧
            heap (st w') = <[a := OLock {| lock_name := b; flag := 0;
                                           currentThread := NULL |}]>
                             (<[b := OStr name]> (heap (st w))) ∧
            only_heap_differs w w'
  | None =>
      ∃ w', lock_create name w = Done NULL w' ∧ heap (st w') = heap (st w) ∧
            only_heap_differs w w'
  end ∧
  (∀ w1, kmalloc w = Done NULL w1 → lock_create name w = Done NULL w1) ∧
  (∀ a w1 w2,
     kmalloc w = Done a w1 → a ≠ NULL → kstrdup name w1 = Done NULL w2 →
     ∃ w', lock_create name w = Done NULL w' ∧ heap (st w') = heap (st w) ∧
           only_heap_differs w w') ∧
  (∀ a w1 b w2,
     kmalloc w = Done a w1 → a ≠ NULL → kstrdup name w1 = Done b w2 → b ≠ NULL →
     ∃ w', lock_create name w = Done a w' ∧
           heap (st w') = <[a := OLock {| lock_name := b; flag := 0;
                                          currentThread := NULL |}]>
                            (<[b := OStr name]> (heap (st w))) ∧
           only_heap_differs w w').
Proof.
  split; [by apply (create_cases
                      (fun nm => OLock {| lock_name := nm; flag := 0;
                                          currentThread := NULL |}))|].
  split; [by apply (create_by_blocks
                      (fun nm => OLock {| lock_name := nm; flag := 0;
                                          currentThread := NULL |}))|].
  by apply (create_follows_allocator
              (fun nm => OLock {| lock_name := nm; flag := 0; currentThread := NULL |})).
Qed.

Lemma lock_create_outcome_witness :
  (∃ w', lock_create "big" (machine_alloc [400; 401]) = Done 400 w' ∧
         heap (st w') = <[400 := OLock {| lock_name := 401; flag := 0;
                                          currentThread := NULL |}]>
                          (<[401 := OStr "big"]> (objects 0 0 NULL)) ∧
         only_heap_differs (machine_alloc [400; 401]) w') ∧
  (∃ w', lock_create "big" (machine_alloc [400; 0]) = Done NULL w' ∧
         heap (st w') = objects 0 0 NULL ∧ only_heap_differs (machine_alloc [400; 0]) w').
Proof.
  split.
  - destruct (lock_create_outcome "big" (machine_alloc [400; 401])) as (_ & H & _).
    exact H.
  - destruct (lock_create_outcome "big" (machine_alloc [400; 0])) as (_ & H & _).
    exact H.
Defined.

(** X3: cv_create always returns, and what it returns is decided by the
    allocator.  When the allocator has two blocks that are not in use, it
    returns the first, which now holds a pointer to the second, which holds
    a copy of the name; no other object is changed.  Otherwise (kmalloc or
    kstrdup answers NULL) it returns NULL and the heap is exactly as
    before. *)
Theorem cv_create_outcome (name : string) (w : world) :
  (∃ p w', cv_create name w = Done p w' ∧ only_heap_differs w w' ∧
     (p = NULL → heap (st w') = heap (st w)) ∧
     (p ≠ NULL → heap (st w) !! p = None ∧
        ∃ nm, nm ≠ NULL ∧ nm ≠ p ∧ heap (st w) !! nm = None ∧
              heap (st w') = <[p := OCv {| cv_name := nm |}]>
                               (<[nm := OStr name]> (heap (st w))))) ∧
  match two_blocks (kalloc (st w)) (heap (st w)) with
  | Some (a, b) =>
      ∃ w', cv_create name w = Done a w' ∧
            heap (st w') = <[a := OCv {| cv_name := b |}]>
                             (<[b := OStr name]> (heap (st w))) ∧
            only_heap_differs w w'
  | None =>
      ∃ w', cv_create name w = Done NULL w' ∧ heap (st w') = heap (st w) ∧
            only_heap_differs w w'
  end ∧
  (∀ w1, kmalloc w = Done NULL w1 → cv_create name w = Done NULL w1) ∧
  (∀ a w1 w2,
     kmalloc w = Done a w1 → a ≠ NULL → kstrdup name w1 = Done NULL w2 →
     ∃ w', cv_create name w = Done NULL w' ∧ heap (st w') = heap (st w) ∧
           only_heap_differs w w') ∧
  (∀ a w1 b w2,
     kmalloc w = Done a w1 → a ≠ NULL → kstrdup name w1 = Done b w2 → b ≠ NULL →
     ∃ w', cv_create name w = Done a w' ∧
           heap (st w') = <[a := OCv {| cv_name := b |}]>
                            (<[b := OStr name]> (heap (st w))) ∧
           only_heap_differs w w').
Proof.
  split; [by apply (create_cases (fun nm => OCv {| cv_name := nm |}))|].
  split; [by apply (create_by_blocks (fun nm => OCv {| cv_name := nm |}))|].
  by apply (create_follows_allocator (fun nm => OCv {| cv_name := nm |})).
Qed.

Lemma cv_create_outcome_witness :
  (∃ w', cv_create "ready" (machine_alloc [400; 401]) = Done 400 w' ∧
         heap (st w') = <[400 := OCv {| cv_name := 401 |}]>
                          (<[401 := OStr "ready"]> (objects 0 0 NULL)) ∧
         only_heap_differs (machine_alloc [400; 401]) w') ∧
  (∃ w', cv_create "ready" (machine_alloc [400; 400]) = Done NULL w' ∧
         heap (st w') = objects 0 0 NULL ∧
         only_heap_differs (machine_alloc [400; 400]) w').
Proof.
  split.
  - destruct (cv_create_outcome "ready" (machine_alloc [400; 401])) as (_ & H & _).
    exact H.
  - destruct (cv_create_outcome "ready" (machine_alloc [400; 400])) as (_ & H & _).
    exact H.
Defined.

Lemma sem_create_heap name c w p w1 :
  sem_create name c w = Done p w1 → p ≠ NULL →
  only_heap_differs w w1 ∧ heap (st w) !! p = None ∧
  ∃ nm, nm ≠ p ∧ heap (st w) !! nm = None ∧
        heap (st w1) = <[p := OSem {| sem_name := nm; count := c |}]>
                         (<[nm := OStr name]> (heap (st w))).
Proof.
  unfold sem_create, bind at 1, assert. destruct (0 <=? c); [|done].
  destruct (create_cases (fun nm => OSem {| sem_name := nm; count := c |}) name w _ eq_refl)
    as (p' & w' & -> & Hs & _ & Hok).
  intros [= -> ->] Hp. destruct (Hok Hp) as (? & nm & ? & ? & ? & ?). eauto 10.
Qed.

Lemma lock_create_heap name w p w1 :
  lock_create name w = Done p w1 → p ≠ NULL →
  only_heap_differs w w1 ∧ heap (st w) !! p = None ∧
  ∃ nm, nm ≠ p ∧ heap (st w) !! nm = None ∧
        heap (st w1) = <[p := OLock {| lock_name := nm; flag := 0; currentThread := NULL |}]>
                         (<[nm := OStr name]> (heap (st w))).
Proof.
  destruct (create_cases
              (fun nm => OLock {| lock_name := nm; flag := 0; currentThread := NULL |})
              name w (lock_create name) eq_refl)
    as (p' & w' & -> & Hs & _ & Hok).
  intros [= -> ->] Hp. destruct (Hok Hp) as (? & nm & ? & ? & ? & ?). eauto 10.
Qed.

Lemma cv_create_heap name w p w1 :
  cv_create name w = Done p w1 → p ≠ NULL →
  only_heap_differs w w1 ∧ heap (st w) !! p = None ∧
  ∃ nm, nm ≠ p ∧ heap (st w) !! nm = None ∧
        heap (st w1) = <[p := OCv {| cv_name := nm |}]> (<[nm := OStr name]> (heap (st w))).
Proof.
  destruct (create_cases (fun nm => OCv {| cv_name := nm |}) name w (cv_create name) eq_refl)
    as (p' & w' & -> & Hs & _ & Hok).
  intros [= -> ->] Hp. destruct (Hok Hp) as (? & nm & ? & ? & ? & ?). eauto 10.
Qed.

Lemma delete_both (h : gmap Z obj) p nm o s :
  nm ≠ p → h !! p = None → h !! nm = None →
  delete p (delete nm (<[p := o]> (<[nm := s]> h))) = h.
Proof.
  intros Hne Hp Hn.
  rewrite delete_insert_ne by done. rewrite (delete_insert_id h nm) by done.
  by apply delete_insert_id.
Qed.

(** X4: an object destroyed right after it was created leaves the heap as
    it was before the creation: both blocks, the structure and the copy of
    the name, are given back, and the interrupt level and the queues are
    as before.  (For a semaphore: provided no thread sleeps on the address,
    which sem_destroy asserts.) *)
Theorem create_destroy_round_trip (w : world) (name : string) :
  (∀ c p w1,
     sem_create name c w = Done p w1 → p ≠ NULL →
     existsb (on_chan p) (sleepers (st w)) = false →
     ∃ w2, sem_destroy p w1 = Done tt w2 ∧ heap (st w2) = heap (st w) ∧
           curspl (st w2) = curspl (st w) ∧ sleepers (st w2) = sleepers (st w) ∧
           runqueue (st w2) = runqueue (st w)) ∧
  (∀ p w1,
     lock_create name w = Done p w1 → p ≠ NULL →
     ∃ w2, lock_destroy p w1 = Done tt w2 ∧ heap (st w2) = heap (st w) ∧
           only_heap_differs w w2) ∧
  (∀ p w1,
     cv_create name w = Done p w1 → p ≠ NULL →
     ∃ w2, cv_destroy p w1 = Done tt w2 ∧ heap (st w2) = heap (st w) ∧
           only_heap_differs w w2).
Proof.
  split; [|split].
  - intros c p w1 Hc Hp Hsl.
    destruct (sem_create_heap _ _ _ _ _ Hc Hp) as (Hs & Hfp & nm & Hne & Hfn & Hh).
    destruct Hs as (Hspl & _ & _ & Hsle & Hrq & _).
    eexists. split.
    { apply (sem_destroy_ok w1 p {| sem_name := nm; count := c |}); [done | |].
      - by rewrite Hh, lookup_insert_eq.
      - by rewrite Hsle. }
    cbn [st kupd heap curspl sleepers runqueue sem_name].
    rewrite Hh. split; [by apply delete_both|done].
  - intros p w1 Hc Hp.
    destruct (lock_create_heap _ _ _ _ Hc Hp) as (Hs & Hfp & nm & Hne & Hfn & Hh).
    eexists. split.
    { apply (lock_destroy_ok w1 p {| lock_name := nm; flag := 0; currentThread := NULL |});
        [done|]. by rewrite Hh, lookup_insert_eq. }
    cbn [st kupd heap lock_name]. rewrite Hh. split; [by apply delete_both|].
    unfold only_heap_differs in *. cbn. done.
  - intros p w1 Hc Hp.
    destruct (cv_create_heap _ _ _ _ Hc Hp) as (Hs & Hfp & nm & Hne & Hfn & Hh).
    eexists. split.
    { apply (cv_destroy_ok w1 p {| cv_name := nm |}); [done|].
      by rewrite Hh, lookup_insert_eq. }
    cbn [st kupd heap cv_name]. rewrite Hh. split; [by apply delete_both|].
    unfold only_heap_differs in *. cbn. done.
Qed.

Lemma create_destroy_round_trip_witness :
  ∃ w1 w2,
    sem_create "mutex" 1 (machine_alloc [400; 401]) = Done 400 w1 ∧
    sem_destroy 400 w1 = Done tt w2 ∧
    heap (st w2) = objects 0 0 NULL ∧ curspl (st w2) = 0.
Proof.
  destruct (create_destroy_round_trip (machine_alloc [400; 401]) "mutex") as (Hsem & _ & _).
  assert (Hc : ∃ w1, sem_create "mutex" 1 (machine_alloc [400; 401]) = Done 400 w1)
    by (eexists; vm_compute; reflexivity).
  destruct Hc as (w1 & Hc).
  destruct (Hsem 1 400 w1 Hc) as (w2 & Hd & Hh & Hspl & _).
  - vm_compute. discriminate.
  - reflexivity.
  - exists w1, w2. split; [exact Hc|]. split; [exact Hd|]. split; [exact Hh | exact Hspl].
Defined.

(** ** Contract violations *)

(** X5: every function that takes a handle stops at its assertion when the
    handle is NULL, and sem_create stops when the initial count is negative.
    sem_create, sem_destroy, P, V, lock_destroy, lock_do_i_hold and
    cv_destroy have changed nothing at that point; lock_acquire,
    lock_release, cv_wait, cv_signal and cv_broadcast test their arguments
    after [splhigh], so the kernel halts with the interrupt level raised. *)
Theorem null_handle_or_negative_count_panics (w : world) (name : string) (c : Z) (a : ptr) :
  c < 0 → a ≠ NULL →
  sem_create name c w = Panic "initial_count >= 0" w ∧
  sem_destroy NULL w = Panic "sem != NULL" w ∧
  P NULL w = Panic "sem != NULL" w ∧
  V NULL w = Panic "sem != NULL" w ∧
  lock_destroy NULL w = Panic "lock != NULL" w ∧
  lock_do_i_hold NULL w = Panic "lock != NULL" w ∧
  cv_destroy NULL w = Panic "cv != NULL" w ∧
  (∃ w', lock_acquire NULL w = Panic "lock != NULL" w' ∧ curspl (st w') = SPL_HIGH ∧
         lock_release NULL w = Panic "lock != NULL" w' ∧
         cv_wait a NULL w = Panic "lock != NULL" w' ∧
         cv_signal a NULL w = Panic "lock != NULL" w' ∧
         cv_broadcast a NULL w = Panic "lock != NULL" w' ∧
         cv_wait NULL a w = Panic "cv != NULL" w' ∧
         cv_signal NULL a w = Panic "cv != NULL" w' ∧
         cv_broadcast NULL a w = Panic "cv != NULL" w').
Proof.
  intros Hc Ha. repeat split.
  - unfold sem_create, bind, assert. destruct (Z.leb_spec 0 c); [lia|done].
  - eexists. msimp. cbn [Z.eqb NULL]. msimp. not_null. done.
Qed.

Lemma null_handle_or_negative_count_panics_witness :
  sem_create "s" (-1) (machine (objects 0 0 NULL) 0 0 1 [])
  = Panic "initial_count >= 0" (machine (objects 0 0 NULL) 0 0 1 []) ∧
  P NULL (machine (objects 0 0 NULL) 0 0 1 [])
  = Panic "sem != NULL" (machine (objects 0 0 NULL) 0 0 1 []) ∧
  ∃ w', cv_wait 300 NULL (machine (objects 0 0 NULL) 0 0 1 []) = Panic "lock != NULL" w' ∧
        curspl (st w') = SPL_HIGH.
Proof.
  destruct (null_handle_or_negative_count_panics
              (machine (objects 0 0 NULL) 0 0 1 []) "s" (-1) 300)
    as (H1 & _ & H2 & _ & _ & _ & _ & w' & _ & Hspl & _ & H3 & _).
  - vm_compute. reflexivity.
  - vm_compute. discriminate.
  - split; [exact H1|]. split; [exact H2|]. exists w'. split; [exact H3 | exact Hspl].
Defined.

Lemma lock_acquire_in_interrupt w lk :
  lk ≠ NULL → in_interrupt (st w) ≠ 0 →
  ∃ w', lock_acquire lk w = Panic "in_interrupt == 0" w' ∧ heap (st w') = heap (st w).
Proof.
  intros Hn Hi. msimp. not_null.
  destruct (Z.eqb_spec (in_interrupt (st w)) 0); [done|]. eauto.
Qed.

Lemma cv_wait_in_interrupt w c lk :
  c ≠ NULL → lk ≠ NULL → in_interrupt (st w) ≠ 0 →
  ∃ w', cv_wait c lk w = Panic "in_interrupt == 0" w' ∧ heap (st w') = heap (st w).
Proof.
  intros Hc Hn Hi. msimp. not_null.
  destruct (Z.eqb_spec (in_interrupt (st w)) 0); [done|]. eauto.
Qed.

(** X6: the three calls that can sleep refuse to run inside an interrupt
    handler whether or not they would have to sleep: with in_interrupt
    nonzero P halts the kernel even when count is positive, lock_acquire
    even when the lock is free, and cv_wait before it releases the lock.
    No object has been changed when the assertion fails. *)
Theorem blocking_calls_panic_in_interrupt (w : world) (sem lk c : ptr) :
  in_interrupt (st w) ≠ 0 → sem ≠ NULL → lk ≠ NULL → c ≠ NULL →
  P sem w = Panic "in_interrupt==0" w ∧
  (∃ w', lock_acquire lk w = Panic "in_interrupt == 0" w' ∧ heap (st w') = heap (st w)) ∧
  (∃ w', cv_wait c lk w = Panic "in_interrupt == 0" w' ∧ heap (st w') = heap (st w)).
Proof.
  intros Hi Hs Hl Hc. split; [by apply P_in_interrupt|].
  split; [by apply lock_acquire_in_interrupt | by apply cv_wait_in_interrupt].
Qed.

Lemma blocking_calls_panic_in_interrupt_witness :
  let w := machine (objects 5 0 NULL) 0 1 1 [] in
  P 100 w = Panic "in_interrupt==0" w ∧
  (∃ w', lock_acquire 200 w = Panic "in_interrupt == 0" w' ∧ heap (st w') = heap (st w)) ∧
  (∃ w', cv_wait 300 200 w = Panic "in_interrupt == 0" w' ∧ heap (st w') = heap (st w)).
Proof.
  intros w. apply (blocking_calls_panic_in_interrupt w 100 200 300).
  - vm_compute. discriminate.
  - vm_compute. discriminate.
  - vm_compute. discriminate.
  - vm_compute. discriminate.
Defined.

(** ** Calls that undo each other *)

(** X7: V followed by P on the same semaphore, outside interrupt context:
    the P finds count positive, so it returns without sleeping, and the
    semaphore, the whole heap and the interrupt level are as before the V.
    (What remains of the V is that the sleepers on the semaphore are
    runnable.) *)
Theorem V_then_P_round_trip (w : world) (sem : ptr) (v : semaphore) :
  sem ≠ NULL → in_interrupt (st w) = 0 →
  heap (st w) !! sem = Some (OSem v) → 0 ≤ count v < INT_MAX →
  ∃ w1 w2,
    V sem w = Done tt w1 ∧ P sem w1 = Done tt w2 ∧
    heap (st w2) = heap (st w) ∧ curspl (st w2) = curspl (st w) ∧
    sleepers (st w2) = others sem (sleepers (st w)) ∧
    runqueue (st w2) = runqueue (st w) ++ waiters sem (sleepers (st w)).
Proof.
  intros Hn Hi Hh Hc. do 2 eexists. split; [by apply V_eq|].
  rewrite P_enters by done. cbn [st kupd heap curspl sleepers runqueue tr].
  erewrite P_loop_takes; [| cbn [st kupd heap]; apply lookup_insert_eq | cbn [count]; lia].
  split; [reflexivity|]. cbn [st kupd heap curspl sleepers runqueue sem_name count].
  rewrite insert_insert_eq. replace (count v + 1 - 1) with (count v) by lia.
  split; [|done]. apply insert_id. rewrite Hh. by destruct v.
Qed.

Lemma V_then_P_round_trip_witness :
  let w := machine (objects 2 0 NULL) 0 0 1 [(2, 100)] in
  ∃ w1 w2,
    V 100 w = Done tt w1 ∧ P 100 w1 = Done tt w2 ∧
    heap (st w2) = heap (st w) ∧ curspl (st w2) = curspl (st w) ∧
    sleepers (st w2) = others 100 (sleepers (st w)) ∧
    runqueue (st w2) = runqueue (st w) ++ waiters 100 (sleepers (st w)).
Proof.
  intros w. apply (V_then_P_round_trip w 100 {| sem_name := 101; count := 2 |}).
  - vm_compute. discriminate.
  - reflexivity.
  - reflexivity.
  - vm_compute. split; [discriminate | reflexivity].
Defined.

(** X8: lock_acquire on a free lock followed by lock_release by the same
    thread, outside interrupt context: in between lock_do_i_hold answers 1
    to the caller; afterwards the lock, the whole heap and the interrupt
    level are as before, lock_do_i_hold answers 0, and the only trace of
    the pair is that the sleepers on the lock are runnable. *)
Theorem acquire_then_release_round_trip (w : world) (lk : ptr) (v : lock) :
  lk ≠ NULL → in_interrupt (st w) = 0 → curthread (st w) ≠ NULL →
  heap (st w) !! lk = Some (OLock v) → flag v = 0 → currentThread v = NULL →
  ∃ w1 w2,
    lock_acquire lk w = Done tt w1 ∧ lock_do_i_hold lk w1 = Done 1 w1 ∧
    lock_release lk w1 = Done tt w2 ∧ lock_do_i_hold lk w2 = Done 0 w2 ∧
    heap (st w2) = heap (st w) ∧ curspl (st w2) = curspl (st w) ∧
    sleepers (st w2) = others lk (sleepers (st w)) ∧
    runqueue (st w2) = runqueue (st w) ++ waiters lk (sleepers (st w)).
Proof.
  intros Hn Hi Ht Hh Hf Ho.
  pose (v1 := {| lock_name := lock_name v; flag := 1; currentThread := curthread (st w) |}).
  pose (w1 := {| st := kupd (<[lk := OLock v1]> (heap (st w))) (curspl (st w))
                            (sleepers (st w)) (runqueue (st w)) (st w);
                 tr := tr w ++ [EvSpl SPL_HIGH; EvFlag lk 1; EvOwner lk (curthread (st w));
                                EvSpl (curspl (st w))] |}).
  assert (Ha : lock_acquire lk w = Done tt w1).
  { rewrite lock_acquire_enters by done.
    erewrite lock_acquire_loop_takes; [| exact Hh | exact Hf].
    unfold w1, v1. cbn [st kupd heap curspl sleepers runqueue curthread tr].
    by rewrite <- app_assoc. }
  assert (Hh1 : heap (st w1) !! lk = Some (OLock v1)) by apply lookup_insert_eq.
  exists w1. eexists. split; [exact Ha|]. split.
  { rewrite (lock_do_i_hold_eq w1 lk v1) by done.
    cbn [currentThread v1 w1 st kupd curthread]. by rewrite Z.eqb_refl. }
  split; [by apply (lock_release_owner w1 lk v1)|].
  cbn [st kupd heap curspl sleepers runqueue w1 v1 lock_name].
  rewrite insert_insert_eq.
  assert (Hid : <[lk := OLock {| lock_name := lock_name v; flag := 0;
                                 currentThread := NULL |}]> (heap (st w)) = heap (st w)).
  { apply insert_id. rewrite Hh. destruct v. cbn in *. by subst. }
  rewrite Hid. split; [|done].
  erewrite lock_do_i_hold_eq; [| done | exact Hh].
  cbn [st kupd curthread]. rewrite Ho.
  destruct (Z.eqb_spec NULL (curthread (st w))); [congruence | done].
Qed.

Lemma acquire_then_release_round_trip_witness :
  let w := machine (objects 0 0 NULL) 0 0 1 [(2, 200)] in
  ∃ w1 w2,
    lock_acquire 200 w = Done tt w1 ∧ lock_do_i_hold 200 w1 = Done 1 w1 ∧
    lock_release 200 w1 = Done tt w2 ∧ lock_do_i_hold 200 w2 = Done 0 w2 ∧
    heap (st w2) = heap (st w) ∧ curspl (st w2) = curspl (st w) ∧
    sleepers (st w2) = others 200 (sleepers (st w)) ∧
    runqueue (st w2) = runqueue (st w) ++ waiters 200 (sleepers (st w)).
Proof.
  intros w.
  apply (acquire_then_release_round_trip w 200
           {| lock_name := 201; flag := 0; currentThread := NULL |}).
  - vm_compute. discriminate.
  - reflexivity.
  - vm_compute. discriminate.
  - reflexivity.
  - reflexivity.
  - reflexivity.
Defined.

(** ** The assertions on count *)

Lemma wrap_int_small z : INT_MIN ≤ z < 0 → wrap_int (z + 1) = z + 1 ∧ wrap_int (z - 1 + 1) = z.
Proof.
  intros H. replace (z - 1 + 1) with z by lia.
  split; apply wrap_int_id; unfold INT_MIN, INT_MAX in *; lia.
Qed.

(** X9: the assertion [sem->count>0] guards both ends of the range of the
    int count.  V on a semaphore whose count is INT_MAX wraps it to INT_MIN
    and halts at the assertion; V on a negative count halts after the
    increment; P on a negative count halts at the assertion without
    decrementing or sleeping. *)
Theorem count_assertions_guard_the_range (w : world) (sem : ptr) (v : semaphore) :
  sem ≠ NULL → heap (st w) !! sem = Some (OSem v) → INT_MIN ≤ count v ≤ INT_MAX →
  (count v = INT_MAX →
   ∃ w', V sem w = Panic "sem->count>0" w' ∧ sem_count_at sem w' = Some INT_MIN) ∧
  (count v < 0 →
   ∃ w', V sem w = Panic "sem->count>0" w' ∧ sem_count_at sem w' = Some (count v + 1)) ∧
  (count v < 0 → in_interrupt (st w) = 0 →
   ∃ w', P sem w = Panic "sem->count>0" w' ∧ sem_count_at sem w' = Some (count v) ∧
         sleepers (st w') = sleepers (st w)).
Proof.
  intros Hn Hh Hr. split; [|split].
  - intros Hc. msimp. not_null. mrun with Hh.
    rewrite Hc, wrap_int_overflow. cbn [Z.ltb Z.compare INT_MIN].
    eexists. split; [reflexivity|].
    unfold sem_count_at. cbn [st heap]. by rewrite lookup_insert_eq.
  - intros Hc. msimp. not_null. mrun with Hh.
    destruct (wrap_int_small (count v)) as [-> _]; [lia|].
    destruct (Z.ltb_spec 0 (count v + 1)); [lia|].
    eexists. split; [reflexivity|].
    unfold sem_count_at. cbn [st heap]. by rewrite lookup_insert_eq.
  - intros Hc Hi. msimp. not_null. mrun with Hh.
    destruct (Z.eqb_spec (count v) 0); [lia|].
    destruct (Z.ltb_spec 0 (count v)); [lia|].
    eexists. split; [reflexivity|].
    unfold sem_count_at. cbn [st heap sleepers]. by rewrite Hh.
Qed.

Lemma count_assertions_guard_the_range_witness :
  ∃ w', V 100 (machine (objects 2147483647 0 NULL) 0 0 1 []) = Panic "sem->count>0" w' ∧
        sem_count_at 100 w' = Some INT_MIN.
Proof.
  destruct (count_assertions_guard_the_range
              (machine (objects 2147483647 0 NULL) 0 0 1 []) 100
              {| sem_name := 101; count := 2147483647 |}) as (H & _).
  - vm_compute. discriminate.
  - reflexivity.
  - vm_compute. split; discriminate.
  - apply H. reflexivity.
Defined.

(** ** When a call gives up the processor *)

(** X10: P and lock_acquire put their caller to sleep only when the
    semaphore's count is 0, respectively the lock's flag nonzero, and then
    they have done nothing else: the object is untouched, the caller is
    added at the tail of the sleepers on the object's address, nobody is
    woken, the interrupt level is at the maximum, and the only events
    between entry and sleep are [splhigh] and the sleep itself.  The frame
    left behind holds the level the caller entered with. *)
Theorem sleep_only_when_unavailable (w : world) :
  (∀ sem k w',
     P sem w = Blocked k w' →
     sem_count_at sem w = Some 0 ∧ k = [FP sem (curspl (st w))] ∧
     st w' = kupd (heap (st w)) SPL_HIGH
                  (sleepers (st w) ++ [(curthread (st w), sem)]) (runqueue (st w)) (st w) ∧
     tr w' = tr w ++ [EvSpl SPL_HIGH; EvSleep (curthread (st w)) sem]) ∧
  (∀ lk k w',
     lock_acquire lk w = Blocked k w' →
     (∃ f o, lock_at lk w = Some (f, o) ∧ f ≠ 0) ∧ k = [FLockAcquire lk (curspl (st w))] ∧
     st w' = kupd (heap (st w)) SPL_HIGH
                  (sleepers (st w) ++ [(curthread (st w), lk)]) (runqueue (st w)) (st w) ∧
     tr w' = tr w ++ [EvSpl SPL_HIGH; EvSleep (curthread (st w)) lk]).
Proof.
  split.
  - intros sem k w'. unfold sem_count_at. explore; try done.
    all: intros [= <- <-]; zfacts; try done.
    all: rewrite <- ?app_assoc; try done.
    all: try (split; [by f_equal|done]).
  - intros lk k w'. unfold lock_at. explore; try done.
    all: intros [= <- <-]; zfacts; try done.
    all: rewrite <- ?app_assoc; try done.
    all: try (split; [by eauto|done]).
Qed.

Lemma sleep_only_when_unavailable_witness :
  ∃ k w', lock_acquire 200 (machine (objects 0 1 2) 0 0 1 [(3, 200)]) = Blocked k w' ∧
          k = [FLockAcquire 200 0] ∧
          sleepers (st w') = [(3, 200); (1, 200)] ∧ lock_at 200 w' = Some (1, 2).
Proof.
  destruct (sleep_only_when_unavailable (machine (objects 0 1 2) 0 0 1 [(3, 200)]))
    as (_ & H).
  assert (Hb : ∃ k w', lock_acquire 200 (machine (objects 0 1 2) 0 0 1 [(3, 200)])
                       = Blocked k w') by (do 2 eexists; vm_compute; reflexivity).
  destruct Hb as (k & w' & Hb). destruct (H 200 k w' Hb) as (_ & Hk & Hst & _).
  exists k, w'. split; [exact Hb|]. split; [exact Hk|].
  unfold lock_at. rewrite Hst. split; reflexivity.
Defined.

(** X11: cv_wait never returns to its caller without having slept: in
    every state it either puts the caller to sleep or halts the kernel.  A
    signal sent before the wait is therefore never consumed by it. *)
Theorem cv_wait_always_sleeps (w : world) (c lk : ptr) :
  (∀ w', cv_wait c lk w ≠ Done tt w') ∧
  (∀ k w', cv_wait c lk w = Blocked k w' →
     k = [FCvWaitSleep c lk (curspl (st w))] ∧
     ∃ sl, sleepers (st w') = sl ++ [(curthread (st w), c)]).
Proof.
  split.
  - intros w'. explore; done.
  - intros k w'. explore; try done.
    all: intros [= <- <-]; split; [done|]; cbn [st sleepers]; eauto.
Qed.

(** X12: the calls other than P, lock_acquire and cv_wait never put their
    caller to sleep, whatever the state and the arguments. *)
Theorem only_P_acquire_wait_sleep (w : world) (a b : ptr) (name : string) (c : Z) :
  ∀ k w',
    sem_create name c w ≠ Blocked k w' ∧ sem_destroy a w ≠ Blocked k w' ∧
    lock_create name w ≠ Blocked k w' ∧ lock_destroy a w ≠ Blocked k w' ∧
    lock_release a w ≠ Blocked k w' ∧ lock_do_i_hold a w ≠ Blocked k w' ∧
    cv_create name w ≠ Blocked k w' ∧ cv_destroy a w ≠ Blocked k w' ∧
    cv_signal a b w ≠ Blocked k w' ∧ cv_broadcast a b w ≠ Blocked k w'.
Proof.
  intros k w'. repeat split.
  all: explore; done.
Qed.

(** ** cv_wait by a thread that does not hold the lock *)

Lemma cv_wait_other w c lk v :
  c ≠ NULL → lk ≠ NULL → in_interrupt (st w) = 0 →
  heap (st w) !! lk = Some (OLock v) → currentThread v ≠ curthread (st w) →
  cv_wait c lk w =
  Blocked [FCvWaitSleep c lk (curspl (st w))]
    {| st := kupd (heap (st w)) SPL_HIGH
                  (sleepers (st w) ++ [(curthread (st w), c)]) (runqueue (st w)) (st w);
       tr := tr w ++ [EvSpl SPL_HIGH; EvSpl SPL_HIGH; EvSleep (curthread (st w)) c] |}.
Proof.
  intros Hc Hl Hi Hh Ho. msimp. not_null. mrun with Hh.
  destruct (Z.eqb_spec (currentThread v) (curthread (st w))); [done|].
  cbn [Z.eqb]. msimp. rewrite <- !app_assoc. reflexivity.
Qed.

(** X13: the lock passed to cv_wait is released only if the caller holds
    it.  Called by a thread that is not the owner, cv_wait leaves the lock
    (and the whole heap) as it is, wakes nobody, and still puts the caller
    to sleep on the cv; when the caller is woken and the lock is free it
    takes the lock, so it returns holding a lock it did not hold before. *)
Theorem cv_wait_by_non_owner (w : world) (c lk : ptr) (v : lock) :
  c ≠ NULL → lk ≠ NULL → in_interrupt (st w) = 0 →
  heap (st w) !! lk = Some (OLock v) → currentThread v ≠ curthread (st w) →
  ∃ w', cv_wait c lk w = Blocked [FCvWaitSleep c lk (curspl (st w))] w' ∧
        heap (st w') = heap (st w) ∧
        sleepers (st w') = sleepers (st w) ++ [(curthread (st w), c)] ∧
        runqueue (st w') = runqueue (st w) ∧
        ∀ W v', in_interrupt (st W) = 0 →
                heap (st W) !! lk = Some (OLock v') → flag v' = 0 →
                ∃ W', resume [FCvWaitSleep c lk (curspl (st w))] W = Done tt W' ∧
                      lock_at lk W' = Some (1, curthread (st W)) ∧
                      curspl (st W') = curspl (st w).
Proof.
  intros Hc Hl Hi Hh Ho. eexists. split; [by eapply cv_wait_other|].
  cbn [st kupd heap sleepers runqueue]. repeat split.
  intros W v' HiW HhW Hf.
  eapply resume_cv_wait_takes; [by left | done..].
Qed.

Lemma cv_wait_by_non_owner_witness :
  let w := machine (objects 0 1 2) 0 0 1 [] in
  ∃ w', cv_wait 300 200 w = Blocked [FCvWaitSleep 300 200 0] w' ∧
        heap (st w') = heap (st w) ∧
        sleepers (st w') = sleepers (st w) ++ [(1, 300)] ∧
        runqueue (st w') = runqueue (st w) ∧
        ∀ W v', in_interrupt (st W) = 0 →
                heap (st W) !! 200 = Some (OLock v') → flag v' = 0 →
                ∃ W', resume [FCvWaitSleep 300 200 0] W = Done tt W' ∧
                      lock_at 200 W' = Some (1, curthread (st W)) ∧
                      curspl (st W') = 0.
Proof.
  intros w.
  apply (cv_wait_by_non_owner w 300 200 {| lock_name := 201; flag := 1; currentThread := 2 |}).
  - vm_compute. discriminate.
  - vm_compute. discriminate.
  - reflexivity.
  - reflexivity.
  - vm_compute. discriminate.
Defined.

(** ** cv_signal and cv_broadcast look at no object *)

(** X14: cv_signal and cv_broadcast only compare their two pointers with
    NULL; they read and write no kernel object.  Run on a machine that
    differs in nothing but the heap, they do the same: the same outcome,
    the same threads woken, and the other heap left as it is.  In
    particular the lock argument need not be held, or be a lock at all. *)
Theorem cv_signal_broadcast_ignore_heap (w : world) (c lk : ptr) (h : gmap Z obj) :
  cv_signal c lk (with_heap h w) =
    match cv_signal c lk w with
    | Done a w' => Done a (with_heap h w')
    | Blocked k w' => Blocked k (with_heap h w')
    | Panic msg w' => Panic msg (with_heap h w')
    | Fault => Fault
    end ∧
  cv_broadcast c lk (with_heap h w) =
    match cv_broadcast c lk w with
    | Done a w' => Done a (with_heap h w')
    | Blocked k w' => Blocked k (with_heap h w')
    | Panic msg w' => Panic msg (with_heap h w')
    | Fault => Fault
    end.
Proof.
  unfold with_heap. split.
  - msimp. destruct (c =? NULL); msimp; [done|].
    destruct (lk =? NULL); msimp; [done|].
    destruct (in_interrupt (st w) =? 0); msimp; [|done].
    destruct (remove_first c (sleepers (st w))) as [[t|] rest]; done.
  - msimp. destruct (c =? NULL); msimp; [done|].
    destruct (lk =? NULL); msimp; [done|].
    destruct (in_interrupt (st w) =? 0); msimp; done.
Qed.

(** ** The interrupt level across a call *)

(** X15: a call of P, V, lock_acquire, cv_signal or cv_broadcast that
    returns leaves the interrupt level as it found it; the one call that
    can return at another level is lock_release, which then returns at the
    maximum level.  A call that sleeps does so at the maximum level and
    leaves frames that remember the caller's level: however often the
    woken thread goes back to sleep, when the call finally returns the
    level is the one the caller had on entry. *)
Theorem interrupt_level_discipline (w : world) :
  (∀ op w',
     exec_op op w = Done tt w' →
     curspl (st w') = curspl (st w) ∨
     ((∃ lk, op = OpRelease lk) ∧ curspl (st w') = SPL_HIGH)) ∧
  (∀ op k w',
     exec_op op w = Blocked k w' →
     returns_at (curspl (st w)) k ∧ curspl (st w') = SPL_HIGH) ∧
  (∀ L k w',
     returns_at L k →
     (resume k w = Done tt w' → curspl (st w') = L) ∧
     (∀ k', resume k w = Blocked k' w' → returns_at L k')).
Proof.
  split; [|split].
  - intros op w'. destruct op; cbn [exec_op].
    all: explore; try done.
    all: intros [= <-]; cbn [st curspl]; eauto.
  - intros op k w'. destruct op; cbn [exec_op].
    all: explore; try done.
    all: intros [= <- <-]; cbn [st curspl]; split; [|done].
    + left. by eexists.
    + right. left. by eexists.
    + right. right. do 2 eexists. by left.
    + right. right. do 2 eexists. by left.
  - intros L k w' [[s ->]|[[l ->]|(c & l & [->|[s ->]])]]; cbn [resume resume_frame].
    all: split; [|intros k'].
    all: explore; try done.
    all: intros [= <-]; subst; cbn [st curspl]; try done.
    + left. by eexists.
    + right. left. by eexists.
    + right. right. do 2 eexists. right. by eexists.
    + right. right. do 2 eexists. right. by eexists.
Qed.

Lemma interrupt_level_discipline_witness :
  ∃ k w1 w2,
    cv_wait 300 200 (machine (objects 0 1 1) 7 0 1 []) = Blocked k w1 ∧
    curspl (st w1) = SPL_HIGH ∧
    resume k (switch_to 1 w1) = Done tt w2 ∧ curspl (st w2) = 7.
Proof.
  assert (Hb : ∃ k w1, cv_wait 300 200 (machine (objects 0 1 1) 7 0 1 []) = Blocked k w1)
    by (do 2 eexists; vm_compute; reflexivity).
  destruct Hb as (k & w1 & Hb).
  assert (Hr : ∃ w2, resume k (switch_to 1 w1) = Done tt w2).
  { vm_compute in Hb. injection Hb as <- <-. eexists. vm_compute. reflexivity. }
  destruct Hr as (w2 & Hr).
  destruct (interrupt_level_discipline (machine (objects 0 1 1) 7 0 1 []))
    as (_ & Hsleep & _).
  destruct (Hsleep (OpWait 300 200) k w1 Hb) as (Hk & Hspl).
  destruct (interrupt_level_discipline (switch_to 1 w1)) as (_ & _ & Hres).
  destruct (Hres 7 k w2 Hk) as (Hdone & _).
  exists k, w1, w2. split; [exact Hb|]. split; [exact Hspl|]. split; [exact Hr|].
  exact (Hdone Hr).
Defined.

(** ** What a call leaves alone *)

(** One address of the heap at the end of one path. *)
Ltac kept_leaf :=
  zfacts; unfold obj_kept; cbn [st heap kalloc in_interrupt curthread] in *;
  repeat split; try done;
  let a := fresh "a" in
  intros a;
  repeat (rewrite lookup_insert; case_decide; [subst a|]);
  repeat match goal with
         | H : heap (st ?w) !! ?p = _ |- context [heap (st ?w) !! ?p] => rewrite H
         end;
  try done; try congruence;
  try (destruct (heap _ !! a) as [[]|]; done).

(** X16: P, V, lock_acquire, lock_release and cv_wait store to nothing but
    the count of their semaphore, respectively the flag and owner of their
    lock, in the part that runs up to the return or the first sleep and in
    every part that runs after a wakeup (the retry of P and of lock_acquire,
    and the taking back of the lock in cv_wait): when that part returns or
    sleeps, every other address of the heap holds what it held, no object
    has appeared or disappeared, names are unchanged, and so are the
    allocator, in_interrupt and curthread.  cv_signal and cv_broadcast leave
    the whole heap as it is. *)
Theorem calls_store_to_their_object_only (w : world) (op : opcall) (w' : world) :
  (exec_op op w = Done tt w' ∨ (∃ k, exec_op op w = Blocked k w')) ∨
  (∃ k, frames_ok op k ∧
        (resume k w = Done tt w' ∨ ∃ k', resume k w = Blocked k' w')) →
  (∀ a, writes op ≠ Some a → heap (st w') !! a = heap (st w) !! a) ∧
  (∀ a, obj_kept (heap (st w) !! a) (heap (st w') !! a)) ∧
  kalloc (st w') = kalloc (st w) ∧
  in_interrupt (st w') = in_interrupt (st w) ∧
  curthread (st w') = curthread (st w).
Proof.
  assert (Hres : ∀ k, frames_ok op k →
            (∃ s spl, op = OpP s ∧ k = [FP s spl]) ∨
            (∃ l spl, op = OpAcquire l ∧ k = [FLockAcquire l spl]) ∨
            (∃ c l spl, op = OpWait c l ∧ k = [FCvWaitSleep c l spl]) ∨
            (∃ c l spl s, op = OpWait c l ∧ k = [FLockAcquire l s; FCvWaitAcquire c l spl])).
  { intros k Hk. destruct op; cbn [frames_ok] in Hk; try done.
    - destruct Hk as [spl ->]. left. by do 2 eexists.
    - destruct Hk as [spl ->]. right. left. by do 2 eexists.
    - destruct Hk as [spl [->|[s ->]]].
      + right. right. left. by do 3 eexists.
      + right. right. right. by do 4 eexists. }
  intros [[H|[k H]]|(k & Hk & H)].
  3: apply Hres in Hk as [(s & spl & -> & ->)|[(l & spl & -> & ->)|
       [(c & l & spl & -> & ->)|(c & l & spl & s & -> & ->)]]];
     destruct H as [H|[k' H]].
  all: clear Hres; revert H.
  1,2: destruct op.
  all: cbn [exec_op writes resume resume_frame].
  all: explore; try done.
  all: intros [= <-]; subst.
  all: split; [intros a Ha; cbn [st heap];
               rewrite ?lookup_insert_ne by congruence; done|].
  all: split; [|done].
  all: kept_leaf.
Qed.

(** A lock_acquire that returns at once, and a cv_wait through its sleep
    and its return: the semaphore is as before at every stage, and the lock
    keeps its name. *)
Lemma calls_store_to_their_object_only_witness :
  (∃ w', lock_acquire 200 (machine (objects 3 0 NULL) 0 0 1 []) = Done tt w' ∧
         heap (st w') !! 100 = Some (OSem {| sem_name := 101; count := 3 |}) ∧
         obj_kept (objects 3 0 NULL !! 200) (heap (st w') !! 200)) ∧
  (∃ k w1 w2,
     cv_wait 300 200 (machine (objects 3 1 1) 0 0 1 []) = Blocked k w1 ∧
     heap (st w1) !! 100 = Some (OSem {| sem_name := 101; count := 3 |}) ∧
     resume k (switch_to 1 w1) = Done tt w2 ∧
     heap (st w2) !! 100 = Some (OSem {| sem_name := 101; count := 3 |}) ∧
     heap (st w2) !! 300 = Some (OCv {| cv_name := 301 |}) ∧
     obj_kept (objects 3 1 1 !! 200) (heap (st w2) !! 200) ∧
     curthread (st w2) = 1).
Proof.
  split.
  - assert (Hd : ∃ w', lock_acquire 200 (machine (objects 3 0 NULL) 0 0 1 []) = Done tt w')
      by (eexists; vm_compute; reflexivity).
    destruct Hd as (w' & Hd).
    destruct (calls_store_to_their_object_only
                (machine (objects 3 0 NULL) 0 0 1 []) (OpAcquire 200) w')
      as (Hother & Hkept & _).
    + left. left. exact Hd.
    + exists w'. split; [exact Hd|]. split.
      * rewrite (Hother 100); [reflexivity | vm_compute; discriminate].
      * exact (Hkept 200).
  - assert (Hb : ∃ k w1, cv_wait 300 200 (machine (objects 3 1 1) 0 0 1 []) = Blocked k w1)
      by (do 2 eexists; vm_compute; reflexivity).
    destruct Hb as (k & w1 & Hb).
    assert (Hr : frames_ok (OpWait 300 200) k ∧
                 heap (st (switch_to 1 w1)) = heap (st w1) ∧
                 ∃ w2, resume k (switch_to 1 w1) = Done tt w2).
    { vm_compute in Hb. injection Hb as <- <-.
      split; [exists 0; left; reflexivity|]. split; [reflexivity|].
      eexists. vm_compute. reflexivity. }
    destruct Hr as (Hk & Hsw & w2 & Hr).
    destruct (calls_store_to_their_object_only
                (machine (objects 3 1 1) 0 0 1 []) (OpWait 300 200) w1)
      as (Hother1 & Hkept1 & _).
    { left. right. exists k. exact Hb. }
    destruct (calls_store_to_their_object_only (switch_to 1 w1) (OpWait 300 200) w2)
      as (Hother2 & Hkept2 & _ & _ & Ht2).
    { right. exists k. split; [exact Hk|]. left. exact Hr. }
    assert (H100 : heap (st w1) !! 100 = Some (OSem {| sem_name := 101; count := 3 |})).
    { rewrite (Hother1 100); [reflexivity | vm_compute; discriminate]. }
    exists k, w1, w2. split; [exact Hb|]. split; [exact H100|]. split; [exact Hr|].
    split; [|split; [|split]].
    + rewrite (Hother2 100), Hsw; [exact H100 | vm_compute; discriminate].
    + rewrite (Hother2 300), Hsw, (Hother1 300);
        [reflexivity | vm_compute; discriminate | vm_compute; discriminate].
    + pose proof (Hkept1 200) as K1. pose proof (Hkept2 200) as K2.
      rewrite Hsw in K2. cbn [machine st heap] in K1.
      change (objects 3 1 1 !! 200) with
        (Some (OLock {| lock_name := 201; flag := 1; currentThread := 1 |})) in *.
      unfold obj_kept in *.
      destruct (heap (st w1) !! 200) as [[| | |v1|]|]; try discriminate K1.
      destruct (heap (st w2) !! 200) as [[| | |v2|]|]; try done.
      congruence.
    + rewrite Ht2. reflexivity.
Defined.

(** ** One wakeup, several woken threads *)

Lemma resume_acquire_sleeps w lk spl v :
  heap (st w) !! lk = Some (OLock v) → flag v ≠ 0 →
  ∃ w', resume [FLockAcquire lk spl] w = Blocked [FLockAcquire lk spl] w' ∧
        lock_at lk w' = Some (flag v, currentThread v) ∧
        In (curthread (st w), lk) (sleepers (st w')).
Proof.
  intros Hh Hf. rewrite resume_one. cbn [resume_frame].
  erewrite lock_acquire_loop_sleeps by done. eexists. split; [done|].
  unfold lock_at. cbn [st kupd heap sleepers]. rewrite Hh.
  split; [done|]. apply in_or_app. right. by left.
Qed.

Lemma sleeper_is_waiter t a l : In (t, a) l → In t (waiters a l).
Proof.
  intros Hin. unfold waiters. apply in_map_iff. exists (t, a). split; [done|].
  apply filter_In. split; [done|]. unfold on_chan. cbn [snd]. apply Z.eqb_refl.
Qed.

(** X17: V and lock_release wake every sleeper, but only the first woken
    thread to run gets through.  A V on a semaphore with count 0, by any
    caller (in an interrupt handler or not, holding a lock or not), moves
    every thread sleeping on the semaphore to the run queue; whichever
    thread runs first then returns from P and count is 0 again; any other
    thread that runs after it goes back to sleep on the semaphore.  A
    lock_release by the owner moves every thread sleeping on the lock to
    the run queue; whichever runs first returns from lock_acquire as the
    owner; any other goes back to sleep on the lock, which stays with the
    first. *)
Theorem first_woken_thread_wins :
  (∀ w sem vs,
     sem ≠ NULL → heap (st w) !! sem = Some (OSem vs) → count vs = 0 →
     ∃ w1, V sem w = Done tt w1 ∧
       sem_count_at sem w1 = Some 1 ∧
       runqueue (st w1) = runqueue (st w) ++ waiters sem (sleepers (st w)) ∧
       sleepers (st w1) = others sem (sleepers (st w)) ∧
       (∀ t, In (t, sem) (sleepers (st w)) → In t (runqueue (st w1))) ∧
       ∀ t1 t2 spl1 spl2,
         ∃ w2 w3,
           resume [FP sem spl1] (switch_to t1 w1) = Done tt w2 ∧
           sem_count_at sem w2 = Some 0 ∧
           resume [FP sem spl2] (switch_to t2 w2) = Blocked [FP sem spl2] w3 ∧
           sem_count_at sem w3 = Some 0 ∧ In (t2, sem) (sleepers (st w3))) ∧
  (∀ w lk vl,
     lk ≠ NULL → heap (st w) !! lk = Some (OLock vl) →
     in_interrupt (st w) = 0 → currentThread vl = curthread (st w) →
     ∃ w1, lock_release lk w = Done tt w1 ∧
       lock_at lk w1 = Some (0, NULL) ∧
       runqueue (st w1) = runqueue (st w) ++ waiters lk (sleepers (st w)) ∧
       sleepers (st w1) = others lk (sleepers (st w)) ∧
       (∀ t, In (t, lk) (sleepers (st w)) → In t (runqueue (st w1))) ∧
       ∀ t1 t2 spl1 spl2,
         ∃ w2 w3,
           resume [FLockAcquire lk spl1] (switch_to t1 w1) = Done tt w2 ∧
           lock_at lk w2 = Some (1, t1) ∧
           resume [FLockAcquire lk spl2] (switch_to t2 w2)
           = Blocked [FLockAcquire lk spl2] w3 ∧
           lock_at lk w3 = Some (1, t1) ∧ In (t2, lk) (sleepers (st w3))).
Proof.
  split.
  - intros w sem vs Hs Hhs Hc.
    eexists. split; [apply V_eq; [done | done | unfold INT_MAX; lia]|].
    split.
    { unfold sem_count_at. cbn [st kupd heap]. rewrite lookup_insert_eq.
      cbn [count]. by rewrite Hc. }
    split; [done|]. split; [done|].
    split.
    { intros t Hin. cbn [st kupd runqueue]. apply in_or_app. right.
      by apply sleeper_is_waiter. }
    intros t1 t2 spl1 spl2.
    match goal with
    | |- context [switch_to t1 ?W] =>
        destruct (resume_P_takes (switch_to t1 W) sem spl1
                    {| sem_name := sem_name vs; count := count vs + 1 |})
          as (w2 & Hr2 & Hc2 & _)
    end.
    { cbn. apply lookup_insert_eq. }
    { cbn [count]. unfold INT_MAX. lia. }
    cbn [count] in Hc2. replace (count vs + 1 - 1) with 0 in Hc2 by lia.
    assert (∃ v2, heap (st (switch_to t2 w2)) !! sem = Some (OSem v2) ∧ count v2 = 0)
      as (v2 & Hh2 & Hv2).
    { unfold sem_count_at in Hc2. cbn [switch_to enter dequeue upd st heap set_queues].
      destruct (heap (st w2) !! sem) as [[| |v2| |]|]; try discriminate Hc2.
      exists v2. split; [done|]. congruence. }
    destruct (resume_P_sleeps (switch_to t2 w2) sem spl2 v2 Hh2 Hv2) as (w3 & Hr3 & Hc3 & Hin).
    exists w2, w3. done.
  - intros w lk vl Hl Hhl Hi Ho.
    eexists. split; [by apply lock_release_owner|].
    split.
    { unfold lock_at. cbn [st kupd heap]. by rewrite lookup_insert_eq. }
    split; [done|]. split; [done|].
    split.
    { intros t Hin. cbn [st kupd runqueue]. apply in_or_app. right.
      by apply sleeper_is_waiter. }
    intros t1 t2 spl1 spl2.
    match goal with
    | |- context [switch_to t1 ?W] =>
        destruct (resume_acquire_takes (switch_to t1 W) lk spl1
                    {| lock_name := lock_name vl; flag := 0; currentThread := NULL |})
          as (w2 & Hr2 & Hl2 & _)
    end.
    { cbn. apply lookup_insert_eq. }
    { done. }
    cbn [switch_to enter st curthread] in Hl2.
    assert (∃ v2, heap (st (switch_to t2 w2)) !! lk = Some (OLock v2) ∧
                  flag v2 = 1 ∧ currentThread v2 = t1) as (v2 & Hh2 & Hf2 & Ho2).
    { unfold lock_at in Hl2. cbn [switch_to enter dequeue upd st heap set_queues].
      destruct (heap (st w2) !! lk) as [[| | |v2|]|]; try discriminate Hl2.
      exists v2. injection Hl2 as ? ?. done. }
    destruct (resume_acquire_sleeps (switch_to t2 w2) lk spl2 v2 Hh2) as (w3 & Hr3 & Hl3 & Hin);
      [lia|].
    exists w2, w3. rewrite Hf2, Ho2 in Hl3. done.
Qed.

(** V from an interrupt handler, by a thread that holds no lock, with
    threads 2 and 3 asleep on the semaphore: both are made runnable, thread
    3 runs first and gets through, thread 2 goes back to sleep.  Then the
    same for a lock released by its owner, with threads 4 and 5. *)
Lemma first_woken_thread_wins_witness :
  (∃ w1 w2 w3,
     V 100 (machine (objects 0 1 1) 0 1 7 [(2, 100); (3, 100); (4, 200)]) = Done tt w1 ∧
     sem_count_at 100 w1 = Some 1 ∧
     runqueue (st w1) = [2; 3] ∧ sleepers (st w1) = [(4, 200)] ∧
     resume [FP 100 0] (switch_to 3 w1) = Done tt w2 ∧
     sem_count_at 100 w2 = Some 0 ∧
     resume [FP 100 0] (switch_to 2 w2) = Blocked [FP 100 0] w3 ∧
     sem_count_at 100 w3 = Some 0 ∧ In (2, 100) (sleepers (st w3))) ∧
  (∃ w1 w2 w3,
     lock_release 200 (machine (objects 0 1 1) 0 0 1 [(4, 200); (2, 100); (5, 200)])
     = Done tt w1 ∧
     lock_at 200 w1 = Some (0, NULL) ∧
     runqueue (st w1) = [4; 5] ∧ sleepers (st w1) = [(2, 100)] ∧
     resume [FLockAcquire 200 0] (switch_to 5 w1) = Done tt w2 ∧
     lock_at 200 w2 = Some (1, 5) ∧
     resume [FLockAcquire 200 0] (switch_to 4 w2) = Blocked [FLockAcquire 200 0] w3 ∧
     lock_at 200 w3 = Some (1, 5) ∧ In (4, 200) (sleepers (st w3))).
Proof.
  destruct first_woken_thread_wins as [HV HL]. split.
  - destruct (HV (machine (objects 0 1 1) 0 1 7 [(2, 100); (3, 100); (4, 200)]) 100
                {| sem_name := 101; count := 0 |})
      as (w1 & H1 & Hst & Hrq & Hsl & _ & Hrun).
    + vm_compute. discriminate.
    + reflexivity.
    + reflexivity.
    + destruct (Hrun 3 2 0 0) as (w2 & w3 & H2 & H3 & H4 & H5 & H6).
      exists w1, w2, w3. split; [exact H1|]. split; [exact Hst|]. split; [exact Hrq|].
      split; [exact Hsl|].
      split; [exact H2|]. split; [exact H3|]. split; [exact H4|]. split; [exact H5|].
      exact H6.
  - destruct (HL (machine (objects 0 1 1) 0 0 1 [(4, 200); (2, 100); (5, 200)]) 200
                {| lock_name := 201; flag := 1; currentThread := 1 |})
      as (w1 & H1 & Hst & Hrq & Hsl & _ & Hrun).
    + vm_compute. discriminate.
    + reflexivity.
    + reflexivity.
    + reflexivity.
    + destruct (Hrun 5 4 0 0) as (w2 & w3 & H2 & H3 & H4 & H5 & H6).
      exists w1, w2, w3. split; [exact H1|]. split; [exact Hst|]. split; [exact Hrq|].
      split; [exact Hsl|].
      split; [exact H2|]. split; [exact H3|]. split; [exact H4|]. split; [exact H5|].
      exact H6.
Defined.

(** ** Runs: a held lock *)

(** The lock [lk] at the end of one path of a call by another thread. *)
Ltac held_leaf lk :=
  zfacts; unfold lock_at in *; cbn [st heap curthread] in *;
  repeat match goal with
         | |- context [<[?a := _]> _ !! lk] =>
             destruct (decide (a = lk)); [subst a|]; simplify_map_eq
         end;
  simplify_map_eq; cbn [flag currentThread] in *;
  first [ done | congruence | lia | idtac ].

Lemma exec_op_other_keeps_lock lk f t op w :
  curthread (st w) ≠ t → lock_at lk w = Some (f, t) → f ≠ 0 →
  match exec_op op w with
  | Done _ w' => lock_at lk w' = Some (f, t) ∧ op ≠ OpAcquire lk ∧ (∀ c, op ≠ OpWait c lk)
  | Blocked k w' => lock_at lk w' = Some (f, t) ∧ frames_ok op k
  | _ => True
  end.
Proof.
  intros Ht Hl Hf. destruct op; cbn [exec_op frames_ok].
  all: explore; try done.
  all: try (split; [|by eexists]).
  all: try (split; [|eexists; by left]).
  all: try (split; [|split; [|done]]).
  all: try (intros [= ->]).
  all: held_leaf lk.
Qed.

Lemma resume_other_keeps_lock lk f t op k w :
  frames_ok op k →
  curthread (st w) ≠ t → lock_at lk w = Some (f, t) → f ≠ 0 →
  match resume k w with
  | Done _ w' => lock_at lk w' = Some (f, t) ∧ op ≠ OpAcquire lk ∧ (∀ c, op ≠ OpWait c lk)
  | Blocked k' w' => lock_at lk w' = Some (f, t) ∧ frames_ok op k'
  | _ => True
  end.
Proof.
  intros Hk Ht Hl Hf. destruct op; cbn [frames_ok] in *; try done.
  - destruct Hk as [spl ->]. cbn [resume resume_frame].
    explore; try done.
    all: try (split; [|by eexists]).
    all: try (split; [|split; [|done]]).
    all: try (intros [= ->]).
    all: held_leaf lk.
  - destruct Hk as [spl ->]. cbn [resume resume_frame].
    explore; try done.
    all: try (split; [|by eexists]).
    all: try (split; [|split; [|done]]).
    all: try (intros [= ->]).
    all: held_leaf lk.
  - destruct Hk as [spl [->|[s ->]]]; cbn [resume resume_frame].
    all: explore; try done.
    all: try (split; [|eexists; right; by eexists]).
    all: try (split; [|split]).
    all: try (intros c0 [= -> ->]).
    all: try (intros [= ->]).
    all: try done.
    all: held_leaf lk.
Qed.

Lemma step_other_keeps_lock lk f t a σ σ' d :
  thread_of a ≠ t → lock_at lk (sw σ) = Some (f, t) → f ≠ 0 → saved_ok (saved σ) →
  step a σ = Some (σ', d) →
  lock_at lk (sw σ') = Some (f, t) ∧ saved_ok (saved σ') ∧
  (∀ t0, t0 ≠ thread_of a → saved σ' !! t0 = saved σ !! t0) ∧
  (∀ t' op, In (t', op) d →
            t' = thread_of a ∧ op ≠ OpAcquire lk ∧ ∀ c, op ≠ OpWait c lk).
Proof.
  intros Ht Hl Hf Hsv. destruct a as [t1 lvl intr op|t1]; cbn [step thread_of] in *.
  - destruct (saved σ !! t1) eqn:Hs1; [done|].
    pose proof (exec_op_other_keeps_lock lk f t op (enter t1 lvl intr (sw σ)) Ht Hl Hf) as He.
    destruct (exec_op op (enter t1 lvl intr (sw σ))) as [[] w'|k w'| |]; try done.
    + intros [= <- <-]. destruct He as (H1 & H2 & H3). cbn [sw saved].
      split; [done|]. split; [done|]. split; [done|].
      intros t' op' [[= <- <-]|[]]; done.
    + intros [= <- <-]. destruct He as (H1 & H2). cbn [sw saved].
      split; [done|]. split; [by apply saved_ok_insert|].
      split; [intros t0 Ht0; by rewrite lookup_insert_ne | intros ? ? []].
  - destruct (saved σ !! t1) as [[op k]|] eqn:Hs1; [|done].
    destruct (existsb _ _); [|done].
    pose proof (resume_other_keeps_lock lk f t op k (switch_to t1 (sw σ))
                  (Hsv _ _ _ Hs1) Ht Hl Hf) as He.
    destruct (resume k (switch_to t1 (sw σ))) as [[] w'|k' w'| |]; try done.
    + intros [= <- <-]. destruct He as (H1 & H2 & H3). cbn [sw saved].
      split; [done|]. split; [by apply saved_ok_delete|].
      split; [intros t0 Ht0; by rewrite lookup_delete_ne|].
      intros t' op' [[= <- <-]|[]]; done.
    + intros [= <- <-]. destruct He as (H1 & H2). cbn [sw saved].
      split; [done|]. split; [by apply saved_ok_insert|].
      split; [intros t0 Ht0; by rewrite lookup_insert_ne | intros ? ? []].
Qed.

(** X18: mutual exclusion.  While a lock is held by thread t, nothing the
    other threads do takes it away: over any run of calls and resumptions
    made by threads other than t (P, V, acquires, releases, waits, signals,
    broadcasts, on this lock or on other objects), flag and owner stay as
    they are, and no lock_acquire on the lock and no cv_wait with the lock
    returns. *)
Theorem held_lock_excludes_other_threads
    (lk : ptr) (f : Z) (t : ptr) (acts : list action) (σ σ' : sys)
    (d : list (ptr * opcall)) :
  f ≠ 0 → lock_at lk (sw σ) = Some (f, t) → saved_ok (saved σ) →
  Forall (λ a, thread_of a ≠ t) acts →
  run acts σ = Some (σ', d) →
  lock_at lk (sw σ') = Some (f, t) ∧
  ∀ t' op, In (t', op) d → t' ≠ t ∧ op ≠ OpAcquire lk ∧ ∀ c, op ≠ OpWait c lk.
Proof.
  intros Hf. revert σ σ' d.
  induction acts as [|a acts IH]; intros σ σ' d Hl Hsv Hall; cbn [run].
  - intros [= <- <-]. split; [done | intros ? ? []].
  - inversion Hall as [|? ? Ha Hall']; subst.
    destruct (step a σ) as [[σ1 d1]|] eqn:Hst; [|done].
    destruct (run acts σ1) as [[σ2 d2]|] eqn:Hr; [|done].
    intros [= <- <-].
    destruct (step_other_keeps_lock _ _ _ _ _ _ _ Ha Hl Hf Hsv Hst) as (Hl1 & Hsv1 & _ & Hd1).
    destruct (IH _ _ _ Hl1 Hsv1 Hall' Hr) as (Hl2 & Hd2).
    split; [done|]. intros t' op Hin. apply in_app_or in Hin as [Hin|Hin].
    + destruct (Hd1 _ _ Hin) as (E & Hna & Hnw). rewrite E. done.
    + by apply Hd2.
Qed.

Lemma held_lock_excludes_other_threads_witness :
  ∃ σ' d,
    run [ACall 2 0 0 (OpAcquire 200); ACall 3 0 0 (OpRelease 200);
         ACall 4 0 0 (OpBroadcast 200 200); AResume 2; ACall 3 0 0 (OpV 100)]
        {| sw := machine (objects 0 1 1) 0 0 1 []; saved := ∅ |} = Some (σ', d) ∧
    lock_at 200 (sw σ') = Some (1, 1) ∧
    ∀ t' op, In (t', op) d → t' ≠ 1 ∧ op ≠ OpAcquire 200 ∧ ∀ c, op ≠ OpWait c 200.
Proof.
  assert (Hr : ∃ σ' d,
             run [ACall 2 0 0 (OpAcquire 200); ACall 3 0 0 (OpRelease 200);
                  ACall 4 0 0 (OpBroadcast 200 200); AResume 2; ACall 3 0 0 (OpV 100)]
                 {| sw := machine (objects 0 1 1) 0 0 1 []; saved := ∅ |} = Some (σ', d))
    by (do 2 eexists; vm_compute; reflexivity).
  destruct Hr as (σ' & d & Hr). exists σ', d. split; [exact Hr|].
  apply (held_lock_excludes_other_threads 200 1 1 _ _ _ _) with (5 := Hr).
  - vm_compute. discriminate.
  - reflexivity.
  - intros t op k H. cbn [saved] in H. rewrite lookup_empty in H. discriminate H.
  - repeat constructor; vm_compute; discriminate.
Defined.

(** ** lock_acquire by the holder *)

Lemma step_stuck_holder lk f t a σ σ' d :
  f ≠ 0 → lock_at lk (sw σ) = Some (f, t) → saved_ok (saved σ) →
  (∃ spl, saved σ !! t = Some (OpAcquire lk, [FLockAcquire lk spl])) →
  step a σ = Some (σ', d) →
  lock_at lk (sw σ') = Some (f, t) ∧ saved_ok (saved σ') ∧
  (∃ spl, saved σ' !! t = Some (OpAcquire lk, [FLockAcquire lk spl])) ∧
  (∀ t' op, In (t', op) d → t' ≠ t ∧ op ≠ OpAcquire lk).
Proof.
  intros Hf Hl Hsv [spl Hst] Hstep.
  destruct (decide (thread_of a = t)) as [Heq|Hne].
  - destruct a as [t1 lvl intr op|t1]; cbn [step thread_of] in *; subst t1.
    + by rewrite Hst in Hstep.
    + rewrite Hst in Hstep. destruct (existsb _ _); [|done].
      assert (∃ v, heap (st (switch_to t (sw σ))) !! lk = Some (OLock v) ∧
                   flag v = f ∧ currentThread v = t) as (v & Hh & Hfv & Hov).
      { unfold lock_at in Hl. cbn [switch_to enter dequeue upd st heap set_queues].
        destruct (heap (st (sw σ)) !! lk) as [[| | |v|]|]; try discriminate Hl.
        exists v. injection Hl as ? ?. done. }
      destruct (resume_acquire_sleeps (switch_to t (sw σ)) lk spl v Hh) as (w' & Hr & Hl' & _);
        [congruence|].
      rewrite Hr in Hstep. injection Hstep as <- <-. cbn [sw saved].
      rewrite Hfv, Hov in Hl'. split; [done|].
      split; [apply saved_ok_insert; [done | by eexists]|].
      split; [exists spl; apply lookup_insert_eq | intros ? ? []].
  - destruct (step_other_keeps_lock _ _ _ _ _ _ _ Hne Hl Hf Hsv Hstep)
      as (Hl' & Hsv' & Hsame & Hd).
    split; [done|]. split; [done|]. split.
    + exists spl. rewrite Hsame; [done | congruence].
    + intros t' op Hin. destruct (Hd _ _ Hin) as (E & Hna & _). rewrite E. done.
Qed.

Lemma run_stuck_holder lk f t acts : ∀ σ σ' d,
  f ≠ 0 → lock_at lk (sw σ) = Some (f, t) → saved_ok (saved σ) →
  (∃ spl, saved σ !! t = Some (OpAcquire lk, [FLockAcquire lk spl])) →
  run acts σ = Some (σ', d) →
  lock_at lk (sw σ') = Some (f, t) ∧ saved_ok (saved σ') ∧
  (∃ spl, saved σ' !! t = Some (OpAcquire lk, [FLockAcquire lk spl])) ∧
  (∀ t' op, In (t', op) d → t' ≠ t ∧ op ≠ OpAcquire lk).
Proof.
  induction acts as [|a acts IH]; intros σ σ' d Hf Hl Hsv Hst; cbn [run].
  - intros [= <- <-]. split; [done|]. split; [done|]. split; [done | intros ? ? []].
  - destruct (step a σ) as [[σ1 d1]|] eqn:Hstep; [|done].
    destruct (run acts σ1) as [[σ2 d2]|] eqn:Hr; [|done].
    intros [= <- <-].
    destruct (step_stuck_holder _ _ _ _ _ _ _ Hf Hl Hsv Hst Hstep) as (Hl1 & Hsv1 & Hst1 & Hd1).
    destruct (IH _ _ _ Hf Hl1 Hsv1 Hst1 Hr) as (Hl2 & Hsv2 & Hst2 & Hd2).
    split; [done|]. split; [done|]. split; [done|].
    intros t' op Hin. apply in_app_or in Hin as [Hin|Hin]; eauto.
Qed.

(** X19: the lock is not reentrant.  When the thread that holds the lock
    calls lock_acquire on it again, it goes to sleep on its own lock; and
    from then on, whatever any thread does (this thread can only be
    resumed, after some wakeup on the lock's address), the lock stays held
    by it, its lock_acquire never returns, it returns from no call at all,
    and no other thread's lock_acquire on the lock returns. *)
Theorem lock_is_not_reentrant
    (w : world) (lk : ptr) (v : lock) (sv : gmap Z (opcall * list frame)) :
  lk ≠ NULL → in_interrupt (st w) = 0 →
  heap (st w) !! lk = Some (OLock v) → flag v ≠ 0 →
  currentThread v = curthread (st w) → saved_ok sv →
  ∃ w1,
    lock_acquire lk w = Blocked [FLockAcquire lk (curspl (st w))] w1 ∧
    ∀ acts σ' d,
      run acts {| sw := w1;
                  saved := <[curthread (st w) :=
                               (OpAcquire lk, [FLockAcquire lk (curspl (st w))])]> sv |}
      = Some (σ', d) →
      lock_at lk (sw σ') = Some (flag v, curthread (st w)) ∧
      is_Some (saved σ' !! curthread (st w)) ∧
      ∀ t' op, In (t', op) d → t' ≠ curthread (st w) ∧ op ≠ OpAcquire lk.
Proof.
  intros Hn Hi Hh Hf Ho Hsv.
  eexists. split.
  { rewrite lock_acquire_enters by done. by erewrite lock_acquire_loop_sleeps. }
  intros acts σ' d Hr.
  apply (run_stuck_holder lk (flag v) (curthread (st w))) in Hr.
  - destruct Hr as (Hl & _ & [spl Hs] & Hd). split; [done|]. split; [by eexists | done].
  - done.
  - unfold lock_at. cbn [sw st kupd heap]. by rewrite Hh, Ho.
  - cbn [saved]. apply saved_ok_insert; [done | by eexists].
  - cbn [saved]. eexists. apply lookup_insert_eq.
Qed.

Lemma lock_is_not_reentrant_witness :
  ∃ w1 σ' d,
    lock_acquire 200 (machine (objects 0 1 1) 0 0 1 []) = Blocked [FLockAcquire 200 0] w1 ∧
    run [ACall 2 0 0 (OpAcquire 200); ACall 3 0 0 (OpBroadcast 200 200); AResume 1; AResume 2]
        {| sw := w1; saved := <[1 := (OpAcquire 200, [FLockAcquire 200 0])]> ∅ |}
    = Some (σ', d) ∧
    lock_at 200 (sw σ') = Some (1, 1) ∧ is_Some (saved σ' !! 1) ∧
    ∀ t' op, In (t', op) d → t' ≠ 1 ∧ op ≠ OpAcquire 200.
Proof.
  destruct (lock_is_not_reentrant (machine (objects 0 1 1) 0 0 1 []) 200
              {| lock_name := 201; flag := 1; currentThread := 1 |} ∅)
    as (w1 & Hb & Hrun).
  - vm_compute. discriminate.
  - reflexivity.
  - reflexivity.
  - vm_compute. discriminate.
  - reflexivity.
  - intros t op k H. rewrite lookup_empty in H. discriminate H.
  - assert (Hr : ∃ σ' d,
               run [ACall 2 0 0 (OpAcquire 200); ACall 3 0 0 (OpBroadcast 200 200);
                    AResume 1; AResume 2]
                   {| sw := w1; saved := <[1 := (OpAcquire 200, [FLockAcquire 200 0])]> ∅ |}
               = Some (σ', d)).
    { vm_compute in Hb. injection Hb as <-. do 2 eexists. vm_compute. reflexivity. }
    destruct Hr as (σ' & d & Hr). exists w1, σ', d. split; [exact Hb|]. split; [exact Hr|].
    exact (Hrun _ _ _ Hr).
Defined.

(** ** Sleepers of a destroyed object *)

(** X20: lock_destroy and cv_destroy neither wake nor unqueue the threads
    that sleep on the object.  After lock_destroy such a thread is still
    queued on the freed address, and when it is resumed the first thing
    lock_acquire does is read the flag of the freed lock.  A thread that
    sleeps on a destroyed cv is not affected: cv_wait reads nothing of the
    cv, and once woken by a signal on the stale pointer it takes the lock
    back as usual. *)
Theorem sleepers_survive_destroy (w : world) (lk c : ptr) (vl : lock) (vc : cv) (t : ptr) :
  lk ≠ NULL → c ≠ NULL →
  heap (st w) !! lk = Some (OLock vl) → heap (st w) !! c = Some (OCv vc) →
  (∃ w1, lock_destroy lk w = Done tt w1 ∧
         sleepers (st w1) = sleepers (st w) ∧ runqueue (st w1) = runqueue (st w) ∧
         ∀ spl, resume [FLockAcquire lk spl] (switch_to t w1) = Fault) ∧
  (∃ w1, cv_destroy c w = Done tt w1 ∧
         sleepers (st w1) = sleepers (st w) ∧ runqueue (st w1) = runqueue (st w) ∧
         (c ≠ lk → lock_name vl ≠ c → cv_name vc ≠ lk → flag vl = 0 → ∀ spl,
          ∃ w2, resume [FCvWaitSleep c lk spl] (switch_to t w1) = Done tt w2 ∧
                lock_at lk w2 = Some (1, t) ∧ curspl (st w2) = spl)).
Proof.
  intros Hl Hc Hhl Hhc. split.
  - eexists. split; [by eapply lock_destroy_ok|].
    cbn [st kupd sleepers runqueue]. split; [done|]. split; [done|].
    intros spl. rewrite resume_one. cbn [resume_frame].
    unfold lock_acquire_loop, bind, load_lock.
    cbn [switch_to enter dequeue upd st kupd heap set_queues].
    by rewrite lookup_delete_eq.
  - eexists. split; [by eapply cv_destroy_ok|].
    cbn [st kupd sleepers runqueue]. split; [done|]. split; [done|].
    intros Hne Hn1 Hn2 Hf spl.
    match goal with
    | |- context [switch_to t ?W] =>
        destruct (resume_cv_wait_takes (switch_to t W) c lk spl vl [FCvWaitSleep c lk spl])
          as (w2 & Hr & Hat & Hspl)
    end.
    + by left.
    + done.
    + reflexivity.
    + cbn [switch_to enter dequeue upd st kupd heap set_queues].
      rewrite lookup_delete_ne by done. rewrite lookup_delete_ne by done. exact Hhl.
    + done.
    + exists w2. done.
Qed.

Lemma sleepers_survive_destroy_witness :
  let w := machine (objects 0 0 NULL) 0 0 1 [(2, 200); (3, 300)] in
  (∃ w1, lock_destroy 200 w = Done tt w1 ∧
         sleepers (st w1) = sleepers (st w) ∧ runqueue (st w1) = runqueue (st w) ∧
         ∀ spl, resume [FLockAcquire 200 spl] (switch_to 2 w1) = Fault) ∧
  (∃ w1, cv_destroy 300 w = Done tt w1 ∧
         sleepers (st w1) = sleepers (st w) ∧ runqueue (st w1) = runqueue (st w) ∧
         (300 ≠ 200 → 201 ≠ 300 → 301 ≠ 200 → 0 = 0 → ∀ spl,
          ∃ w2, resume [FCvWaitSleep 300 200 spl] (switch_to 2 w1) = Done tt w2 ∧
                lock_at 200 w2 = Some (1, 2) ∧ curspl (st w2) = spl)).
Proof.
  intros w.
  apply (sleepers_survive_destroy w 200 300
           {| lock_name := 201; flag := 0; currentThread := NULL |} {| cv_name := 301 |} 2).
  - vm_compute. discriminate.
  - vm_compute. discriminate.
  - reflexivity.
  - reflexivity.
Defined.
